(** * WalkThroughPart: a shallow embedding of
    [src/vs/workbench/parts/walkThrough/electron-browser/walkThroughPart.ts]

    The editor pane that renders a walkthrough document, upgrades each fenced
    code block into a live code editor, and keeps a per-document scroll
    position.  The class is modelled by explicit state passing over a record
    [State]; every call made on a collaborator (scrollbar, editors, opener
    service, DOM event) is appended to an effect trace, so that ordering
    properties can be stated on the trace.  A method that can throw returns
    the state it leaves together with an [Outcome].

    [setInput] is asynchronous: the part that runs at the call and the
    continuation that runs when the input has resolved are two operations,
    [setInput] and [setInput_resolved], which a history ([run]) may
    interleave with anything else.

    Conventions.
    - JavaScript numbers that hold pixel sizes, line counts and line heights
      are modelled by [nat], scroll offsets by [Z].
    - JavaScript strings are modelled by [string]; the patterns of the source
      only mention ASCII characters.
    - Collaborators injected through the constructor, and the platform
      functions the source calls ([marked], [URI.parse], [JSON.parse], ...),
      are the fields of the record [Services]; so is what the page decides:
      the elements the prose of a document creates, the offsets a rescan of
      the scroll surface finds, the answer to a selector the model does not
      read.
    - DOM nodes, editors and subscriptions have identities, natural numbers
      drawn from the counter [nextId].

    The file has the embedding first, then the vocabulary of the properties
    and a small instance of the services for examples, then the properties,
    component by component. *)

From Stdlib Require Import Ascii String ZArith Lia.
From Equations Require Import Equations.
From stdpp Require Import gmap strings list pretty.

Open Scope string_scope.
Open Scope list_scope.
Set Warnings "-register-all".

(** ** Characters and strings *)

Definition code (c : ascii) : nat := nat_of_ascii c.

Definition between (lo hi n : nat) : bool := (lo <=? n)%nat && (n <=? hi)%nat.

Definition is_lower (c : ascii) : bool := between 97 122 (code c).
Definition is_upper (c : ascii) : bool := between 65 90 (code c).
Definition is_digit (c : ascii) : bool := between 48 57 (code c).
Definition is_char (n : nat) (c : ascii) : bool := (code c =? n)%nat.

Definition lparen : ascii := ascii_of_nat 40.
Definition rparen : ascii := ascii_of_nat 41.
Definition backslash : ascii := ascii_of_nat 92.
Definition hash_sign : ascii := ascii_of_nat 35.

(** Every character of [s] satisfies [p]. *)
Fixpoint string_forall (p : ascii -> bool) (s : string) : bool :=
  match s with
  | String c s' => p c && string_forall p s'
  | EmptyString => true
  end.

(** The double quote of the template literals of the source. *)
Definition dquote : string := String (ascii_of_nat 34) EmptyString.

(** ** Collaborators *)

Record URI := {
  scheme : string;
  authority : string;
  path : string;
  query : string;
  fragment : string
}.

(** [uri.with({ query })] *)
Definition uri_with_query (u : URI) (q : string) : URI :=
  {| scheme := scheme u; authority := authority u; path := path u;
     query := q; fragment := fragment u |}.

(** Values of [JSON.parse]. *)
Inductive JSON :=
| JNull
| JBool (b : bool)
| JNum (n : Z)
| JStr (s : string)
| JArr (items : list JSON)
| JObj (fields : list (string * JSON)).

(** A block of a Markdown document, as the Markdown engine meets them: prose
    (anything that is not a fenced code block, already converted) or a fenced
    code block, for which the engine calls [renderer.code(code, lang)]. *)
Inductive Block :=
| Prose (html : string)
| Code (text : string) (lang : string).

(** A top-level element of a markup document: its class list and the
    [data-command] attribute of each of its [.shortcut[data-command]]
    descendants, in document order. *)
Record MarkupElement := {
  me_classes : list string;
  me_commands : list string
}.

(** An element of the rendered document that carries an id.  [el_node] is the
    identity of the DOM node; the inline style of a node lives in the store
    [heights] of the state, since a node stays reachable from an editor after
    it has left the document. *)
Record Element := {
  el_node : nat;
  el_id : string;
  el_classes : list string
}.

(** The scroll offsets of the scroll surface. *)
Record IViewState := {
  scrollTop : Z;
  scrollLeft : Z
}.

(** The calls made on collaborators, in the order they are made. *)
Inductive Event :=
| EvSaveViewState (key : string)
| EvDispose (id : nat)
| EvClearContent
| EvSetMarkup (text : string)
| EvAppendRoot (node : nat)
| EvStyle (node : nat) (theme : string)
| EvCreateEditor (ed div : nat)
| EvSetHeight (div : nat) (height : string)
| EvEditorLayout (ed : nat)
| EvEditorFocus (ed : nat)
| EvEditorTheme (ed : nat) (theme : string)
| EvScanDomNode
| EvUpdateScroll (top left : option Z)
| EvOnReady (node : option nat)
| EvOpen (uri : URI)
| EvPreventDefault
| EvFocus.

Record Services := {
  Keybinding : Type;
  (** [keybindingService.lookupKeybindings(commandId)] *)
  lookupKeybindings : string -> list Keybinding;
  (** [keybindingService.getLabelFor(keybinding)] *)
  getLabelFor : Keybinding -> string;
  (** the blocks [marked] finds in a Markdown text *)
  marked_blocks : string -> list Block;
  (** the elements with an [id] that the markup of a prose block creates when
      it is assigned to [innerHTML]: the id and the class list of each, in
      document order.  [marked] gives a heading an id made from its text, and
      passes the HTML of the document through. *)
  prose_elements : string -> list (string * list string);
  (** [root.querySelector(selector)] for a selector that is not of the shape
      [#name.class...], over the elements given; [None] when the call
      throws *)
  querySelector_complex : string -> list Element -> option (option Element);
  (** the offsets the scroll surface holds after [scanDomNode()], which reads
      the sizes and the offsets of the element again: they depend on the
      layout of the page at that moment, of which the model has the calls
      made so far and the offsets held *)
  rescan : list Event -> IViewState -> IViewState;
  (** the element children obtained by assigning a markup text to
      [innerHTML] *)
  parse_markup : string -> list MarkupElement;
  (** [uri.toString()] *)
  uri_toString : URI -> string;
  (** [URI.parse(text)] *)
  uri_parse : string -> URI;
  (** [JSON.parse(text)]; [None] when it throws *)
  json_parse : string -> option JSON;
  (** [JSON.stringify(value)] *)
  json_stringify : JSON -> string;
  (** [editor.getConfiguration().lineHeight] *)
  lineHeight : nat
}.

(** ** Data model *)

Record IWalkThroughEditorViewState := {
  viewState : IViewState
}.

(** A snippet model handed over by the resolved input: the URI of its text
    model and the line count the model has when the snippet is mounted. *)
Record SnippetModel := {
  sm_uri : URI;
  sm_lineCount : nat
}.

(** What [input.resolve(true)] yields: the lines of the main text model and
    the snippet models, in document order. *)
Record WalkThroughModel := {
  main_lines : list string;
  snippets : list SnippetModel
}.

Record WalkThroughInput := {
  in_resource : URI;
  in_telemetryFrom : string;
  in_onReady : bool
}.

(** An element child of [this.content]. *)
Record Root := {
  root_node : nat;
  root_classes : list string;
  (** the placeholder elements below it, in document order *)
  root_anchors : list Element;
  (** its [.shortcut[data-command]] elements: the command and the text nodes
      appended so far *)
  root_shortcuts : list (string * list string)
}.

Record Editor := {
  ed_id : nat;
  (** the host element the editor was created on *)
  ed_div : nat;
  ed_model : SnippetModel
}.

(** The members of [contentDisposables] and [disposables]. *)
Inductive Disposable :=
| DEditor (e : Editor)
| DThemeStyle (id : nat) (root : nat)
| DContentChange (id : nat) (e : Editor)
| DThemeEditor (id : nat) (e : Editor)
| DScrollbar (id : nat).

Definition disposable_id (d : Disposable) : nat :=
  match d with
  | DEditor e => ed_id e
  | DThemeStyle id _ => id
  | DContentChange id _ => id
  | DThemeEditor id _ => id
  | DScrollbar id => id
  end.

(** [disposable instanceof CodeEditor] *)
Definition as_editor (d : Disposable) : option Editor :=
  match d with
  | DEditor e => Some e
  | _ => None
  end.

Definition editors_of (ds : list Disposable) : list Editor :=
  omap as_editor ds.

Inductive Error := TypeError | SyntaxError.

Inductive Outcome := Done | Threw (e : Error).

Record State := {
  (** [this.input], when it is a [WalkThroughInput] *)
  input : option WalkThroughInput;
  (** [this.position], when it is a number *)
  position : option nat;
  (** [memento[WALK_THROUGH_EDITOR_VIEW_STATE_PREFERENCE_KEY]] *)
  memento : option (gmap string (gmap nat IWalkThroughEditorViewState));
  (** the scroll position held by [this.scrollbar] *)
  scroll : IViewState;
  contentDisposables : list Disposable;
  disposables : list Disposable;
  (** the element children of [this.content] *)
  content : list Root;
  (** [height] and [width] of the inline style of [this.content] *)
  content_size : option (string * string);
  (** [style.height] of the placeholder elements, by node; absent is the
      empty string *)
  heights : gmap nat string;
  (** [themeService.getColorTheme().id] *)
  theme : string;
  (** the next fresh identity for a node, an editor or a subscription *)
  nextId : nat;
  log : list Event
}.

Definition set_input (v : option WalkThroughInput) (st : State) : State :=
  {| input := v; position := position st; memento := memento st;
     scroll := scroll st; contentDisposables := contentDisposables st;
     disposables := disposables st; content := content st;
     content_size := content_size st; heights := heights st;
     theme := theme st; nextId := nextId st; log := log st |}.

Definition set_position (v : option nat) (st : State) : State :=
  {| input := input st; position := v; memento := memento st;
     scroll := scroll st; contentDisposables := contentDisposables st;
     disposables := disposables st; content := content st;
     content_size := content_size st; heights := heights st;
     theme := theme st; nextId := nextId st; log := log st |}.

Definition set_memento
    (v : option (gmap string (gmap nat IWalkThroughEditorViewState)))
    (st : State) : State :=
  {| input := input st; position := position st; memento := v;
     scroll := scroll st; contentDisposables := contentDisposables st;
     disposables := disposables st; content := content st;
     content_size := content_size st; heights := heights st;
     theme := theme st; nextId := nextId st; log := log st |}.

Definition set_scroll (v : IViewState) (st : State) : State :=
  {| input := input st; position := position st; memento := memento st;
     scroll := v; contentDisposables := contentDisposables st;
     disposables := disposables st; content := content st;
     content_size := content_size st; heights := heights st;
     theme := theme st; nextId := nextId st; log := log st |}.

Definition set_contentDisposables (v : list Disposable) (st : State) : State :=
  {| input := input st; position := position st; memento := memento st;
     scroll := scroll st; contentDisposables := v;
     disposables := disposables st; content := content st;
     content_size := content_size st; heights := heights st;
     theme := theme st; nextId := nextId st; log := log st |}.

Definition set_disposables (v : list Disposable) (st : State) : State :=
  {| input := input st; position := position st; memento := memento st;
     scroll := scroll st; contentDisposables := contentDisposables st;
     disposables := v; content := content st;
     content_size := content_size st; heights := heights st;
     theme := theme st; nextId := nextId st; log := log st |}.

Definition set_content (v : list Root) (st : State) : State :=
  {| input := input st; position := position st; memento := memento st;
     scroll := scroll st; contentDisposables := contentDisposables st;
     disposables := disposables st; content := v;
     content_size := content_size st; heights := heights st;
     theme := theme st; nextId := nextId st; log := log st |}.

Definition set_content_size (v : option (string * string)) (st : State) : State :=
  {| input := input st; position := position st; memento := memento st;
     scroll := scroll st; contentDisposables := contentDisposables st;
     disposables := disposables st; content := content st;
     content_size := v; heights := heights st;
     theme := theme st; nextId := nextId st; log := log st |}.

Definition set_heights (v : gmap nat string) (st : State) : State :=
  {| input := input st; position := position st; memento := memento st;
     scroll := scroll st; contentDisposables := contentDisposables st;
     disposables := disposables st; content := content st;
     content_size := content_size st; heights := v;
     theme := theme st; nextId := nextId st; log := log st |}.

Definition set_theme (v : string) (st : State) : State :=
  {| input := input st; position := position st; memento := memento st;
     scroll := scroll st; contentDisposables := contentDisposables st;
     disposables := disposables st; content := content st;
     content_size := content_size st; heights := heights st;
     theme := v; nextId := nextId st; log := log st |}.

Definition set_nextId (v : nat) (st : State) : State :=
  {| input := input st; position := position st; memento := memento st;
     scroll := scroll st; contentDisposables := contentDisposables st;
     disposables := disposables st; content := content st;
     content_size := content_size st; heights := heights st;
     theme := theme st; nextId := v; log := log st |}.

(** Appends calls to the trace. *)
Definition emit (evs : list Event) (st : State) : State :=
  {| input := input st; position := position st; memento := memento st;
     scroll := scroll st; contentDisposables := contentDisposables st;
     disposables := disposables st; content := content st;
     content_size := content_size st; heights := heights st;
     theme := theme st; nextId := nextId st; log := log st ++ evs |}.

(** [this.contentDisposables.push(d)] *)
Definition push_content (d : Disposable) (st : State) : State :=
  set_contentDisposables (contentDisposables st ++ [d]) st.

(** A fresh identity. *)
Definition fresh (st : State) : nat * State :=
  (nextId st, set_nextId (S (nextId st)) st).

(** ** Strings of the DOM *)

(** [`${n}px`] *)
Definition px (n : nat) : string := pretty n +:+ "px".

(** [strings.endsWith(haystack, needle)] *)
Definition endsWith (haystack needle : string) : bool :=
  let h := String.length haystack in
  let n := String.length needle in
  (n <=? h)%nat && String.eqb (String.substring (h - n) n haystack) needle.

(** [haystack.indexOf(needle) >= 0] *)
Fixpoint contains (needle haystack : string) : bool :=
  String.prefix needle haystack ||
  match haystack with
  | String _ rest => contains needle rest
  | EmptyString => false
  end.

(** [lines.join('\n')] *)
Definition newline : string := String (ascii_of_nat 10) EmptyString.

Definition join_lines (lines : list string) : string :=
  match lines with
  | [] => EmptyString
  | l :: ls => fold_left (fun acc x => acc +:+ newline +:+ x) ls l
  end.

(** [classList.add(c)] and [classList.remove(c)] *)
Definition classList_add (c : string) (l : list string) : list string :=
  if decide (c ∈ l) then l else l ++ [c].

Definition classList_remove (c : string) (l : list string) : list string :=
  filter (fun x => x ≠ c) l.

(** [id.replace(/\./g, '\\.')] *)
Fixpoint escape_dots (s : string) : string :=
  match s with
  | String c s' =>
      if is_char 46 c
      then String backslash (String c (escape_dots s'))
      else String c (escape_dots s')
  | EmptyString => EmptyString
  end.

(** *** The placeholder of a code block *)

(** The markup returned by [renderer.code] for the anchor id [id]. *)
Definition placeholder_html (id : string) : string :=
  "<div id=" +:+ dquote +:+ id +:+ dquote +:+ " class=" +:+ dquote
    +:+ "walkThroughEditorContainer" +:+ dquote +:+ " ></div>".

(** [strip_prefix p s] is what follows [p] in [s]. *)
Fixpoint strip_prefix (p s : string) : option string :=
  match p, s with
  | EmptyString, _ => Some s
  | String a p', String b s' =>
      if Ascii.eqb a b then strip_prefix p' s' else None
  | String _ _, EmptyString => None
  end.

(** A double-quoted attribute value: the text before the next double quote
    and the text behind that quote. *)
Fixpoint until_dquote (s : string) : option (string * string) :=
  match s with
  | String c s' =>
      if is_char 34 c then Some (EmptyString, s')
      else match until_dquote s' with
           | Some (v, rest) => Some (String c v, rest)
           | None => None
           end
  | EmptyString => None
  end.

(** What assigning the placeholder markup to [innerHTML] produces: the [id]
    and [class] attributes of the [div].  Character references are not
    modelled. *)
Definition parse_placeholder (html : string) : option (string * string) :=
  match strip_prefix ("<div id=" +:+ dquote) html with
  | Some r1 =>
      match until_dquote r1 with
      | Some (id, r2) =>
          match strip_prefix (" class=" +:+ dquote) r2 with
          | Some r3 =>
              match until_dquote r3 with
              | Some (cls, _) => Some (id, cls)
              | None => None
              end
          | None => None
          end
      | None => None
      end
  | None => None
  end.

(** *** Selectors

    [querySelector] is given selectors of the shape [#name] in this file.
    The model reads a compound selector [#name.class.class...]: a name is made
    of name characters and of escapes, a backslash followed by a character
    that is taken literally.  What the browser answers for a selector with
    hexadecimal escapes or of any other syntax is not worked out here: it is
    the field [querySelector_complex] of the services. *)

Definition is_name_char (c : ascii) : bool :=
  is_lower c || is_upper c || is_digit c || is_char 45 c || is_char 95 c
  || (128 <=? code c)%nat.

Definition is_hex (c : ascii) : bool :=
  is_digit c || between 97 102 (code c) || between 65 70 (code c).

Definition cons_char (c : ascii) (names : list string) : list string :=
  match names with
  | n :: rest => String c n :: rest
  | [] => [String c EmptyString]
  end.

(** The names of a compound selector, separated by unescaped dots. *)
Fixpoint css_names (s : string) : option (list string) :=
  match s with
  | EmptyString => Some [EmptyString]
  | String c s' =>
      if is_char 92 c then
        match s' with
        | String d s'' =>
            if is_hex d || is_char 10 d then None
            else cons_char d <$> css_names s''
        | EmptyString => None
        end
      else if is_char 46 c then (fun l => EmptyString :: l) <$> css_names s'
      else if is_name_char c then cons_char c <$> css_names s'
      else None
  end.

Record Selector := {
  sel_id : string;
  sel_classes : list string
}.

Definition starts_with_digit (s : string) : bool :=
  match s with
  | String c _ => is_digit c
  | EmptyString => false
  end.

Definition is_empty_string (s : string) : bool :=
  match s with
  | EmptyString => true
  | String _ _ => false
  end.

Definition parse_selector (s : string) : option Selector :=
  match s with
  | String h s' =>
      if is_char 35 h then
        match css_names s' with
        | Some (id :: classes) =>
            if is_empty_string id
               || existsb (fun c => is_empty_string c || starts_with_digit c) classes
            then None
            else Some {| sel_id := id; sel_classes := classes |}
        | _ => None
        end
      else None
  | EmptyString => None
  end.

Definition matches (sel : Selector) (el : Element) : bool :=
  String.eqb (el_id el) (sel_id sel)
  && forallb (fun c => bool_decide (c ∈ el_classes el)) (sel_classes sel).

(** [root.querySelector(selector)] over the elements [els] below the root:
    the first element in document order that matches; [None] when the call
    throws, [Some None] when nothing matches (the call returns [null]). *)
Definition querySelector (svc : Services) (els : list Element)
    (selector : string) : option (option Element) :=
  match parse_selector selector with
  | Some sel => Some (find (matches sel) els)
  | None => querySelector_complex svc selector els
  end.

(** ** MacroExpander: [expandMacros] *)

(** [localize('walkThrough.unboundCommand', "unbound")], default language. *)
Definition UNBOUND_COMMAND : string := "unbound".

(** The character class [[a-z.\d\-]] under the [i] flag. *)
Definition is_kb_char (c : ascii) : bool :=
  is_lower c || is_upper c || is_char 46 c || is_digit c || is_char 45 c.

(** The literal prefix [kb\(] under the [i] flag. *)
Definition is_k (c : ascii) : bool := is_char 107 c || is_char 75 c.
Definition is_b (c : ascii) : bool := is_char 98 c || is_char 66 c.
Definition is_lparen (c : ascii) : bool := is_char 40 c.
Definition is_rparen (c : ascii) : bool := is_char 41 c.

(** The longest prefix made of class characters, and what follows it: the
    greedy [[a-z.\d\-]+]. *)
Fixpoint span_kb (s : string) : string * string :=
  match s with
  | String c s' =>
      if is_kb_char c
      then let (run, rest) := span_kb s' in (String c run, rest)
      else (EmptyString, s)
  | EmptyString => (EmptyString, EmptyString)
  end.

(** One attempt of [/kb\(([a-z.\d\-]+)\)/i] at the start of [s]: the command
    id captured and the text after the match.  The closing parenthesis is not
    in the class, so the greedy run never has to give characters back. *)
Definition match_kb (s : string) : option (string * string) :=
  match s with
  | String k (String b (String p r)) =>
      if is_k k && is_b b && is_lparen p then
        match span_kb r with
        | (String c kb, String q rest) =>
            if is_rparen q then Some (String c kb, rest) else None
        | _ => None
        end
      else None
  | _ => None
  end.

(** The text of a macro: [k] and [b] in either case, the command id between
    parentheses. *)
Definition macro (k b : ascii) (kb : string) : string :=
  String k (String b (String lparen (kb +:+ String rparen EmptyString))).

Definition inspect {A : Type} (a : A) : {b : A | a = b} := exist _ a eq_refl.

Section Component.

Variable svc : Services.

(** The replacement callback of [expandMacros]. *)
Definition shortcut_for (kb : string) : string :=
  match lookupKeybindings svc kb with
  | keybinding :: _ => getLabelFor svc keybinding
  | [] => UNBOUND_COMMAND
  end.

Definition shortcut_span (kb : string) : string :=
  "<span class=" +:+ dquote +:+ "shortcut" +:+ dquote +:+ ">"
    +:+ shortcut_for kb +:+ "</span>".

(** [input.replace(/kb\(([a-z.\d\-]+)\)/gi, ...)]: matches are looked for from
    left to right; after a match the scan resumes behind it. *)
Equations? expandMacros (input : string) : string by wf (String.length input) lt :=
  expandMacros EmptyString := EmptyString;
  expandMacros (String c s) with inspect (match_kb (String c s)) := {
    | exist _ (Some (kb, rest)) _ := shortcut_span kb +:+ expandMacros rest;
    | exist _ None _ := String c (expandMacros s) }.
Proof.
  - clear expandMacros.
    destruct s as [|b [|p r]]; simpl in e; try discriminate.
    destruct (is_k c && is_b b && is_lparen p); [|discriminate].
    assert (Hspan : forall t run rest',
      span_kb t = (run, rest') -> (String.length rest' <= String.length t)%nat).
    { induction t as [|x t IH]; simpl; intros run rest' H.
      - inversion H; simpl; lia.
      - destruct (is_kb_char x).
        + destruct (span_kb t) as [run' rest''] eqn:E. inversion H; subst.
          specialize (IH _ _ eq_refl). lia.
        + inversion H; subst; simpl; lia. }
    destruct (span_kb r) as [run rest'] eqn:E.
    apply Hspan in E.
    destruct run as [|x run]; [discriminate|].
    destruct rest' as [|q rest'']; [discriminate|].
    destruct (is_rparen q); [|discriminate].
    inversion e; subst. simpl in *. lia.
  - simpl. lia.
Qed.

(** [decorateContent]: the label appended to a [.shortcut[data-command]]
    element. *)
Definition shortcut_label (command : string) : string :=
  if is_empty_string command then UNBOUND_COMMAND else shortcut_for command.

Definition decorate_root (r : Root) : Root :=
  {| root_node := root_node r; root_classes := root_classes r;
     root_anchors := root_anchors r;
     root_shortcuts :=
       map (fun '(command, texts) => (command, texts ++ [shortcut_label command]))
           (root_shortcuts r) |}.

Definition decorateContent (st : State) : State :=
  set_content (map decorate_root (content st)) st.

(** ** ScrollSurface *)

(** Modelled from the spec: the scroll surface exposes the scroll offset for
    reading and for writing.  [this.scrollbar.updateState({ scrollTop,
    scrollLeft })] makes the offsets given the offsets held; a field that is
    not given keeps its value.  The widget itself is not part of this file;
    the clamping of an offset to the scrollable extent is not modelled. *)
Definition scrollbar_updateState (top left : option Z) (st : State) : State :=
  emit [EvUpdateScroll top left]
    (set_scroll {| scrollTop := default (scrollTop (scroll st)) top;
                   scrollLeft := default (scrollLeft (scroll st)) left |} st).

(** [this.scrollbar.scanDomNode()], the rescan of the scrollable extent.
    Modelled from the spec: the rescan recomputes the scrollable extents
    after a mutation of the content; the offsets the surface holds afterwards
    are those it reads from the element, within the new extents, which
    [rescan] of the services stands for. *)
Definition scanDomNode (st : State) : State :=
  emit [EvScanDomNode] (set_scroll (rescan svc (log st) (scroll st)) st).

(** ** ViewStateStore *)

Definition saveTextEditorViewState (resource : URI) (st : State) : State :=
  let editorViewStateMemento := default ∅ (memento st) in
  let editorViewState :=
    {| viewState := {| scrollTop := scrollTop (scroll st);
                       scrollLeft := scrollLeft (scroll st) |} |} in
  let key := uri_toString svc resource in
  let fileViewState := default ∅ (editorViewStateMemento !! key) in
  let fileViewState' :=
    match position st with
    | Some p => <[p := editorViewState]> fileViewState
    | None => fileViewState
    end in
  emit [EvSaveViewState key]
    (set_memento (Some (<[key := fileViewState']> editorViewStateMemento)) st).

(** The entry [loadTextEditorViewState] finds, if any. *)
Definition storedViewState (resource : URI) (st : State)
    : option IWalkThroughEditorViewState :=
  match memento st with
  | Some editorViewStateMemento =>
      match editorViewStateMemento !! uri_toString svc resource with
      | Some fileViewState =>
          match position st with
          | Some p => fileViewState !! p
          | None => None
          end
      | None => None
      end
  | None => None
  end.

Definition loadTextEditorViewState (resource : URI) (st : State) : State :=
  match storedViewState resource st with
  | Some state =>
      scrollbar_updateState (Some (scrollTop (viewState state)))
                            (Some (scrollLeft (viewState state))) st
  | None => st
  end.

(** ** SnippetEditorManager *)

(** [`snippet-${model.uri.fragment}`] *)
Definition anchor_id (m : SnippetModel) : string :=
  "snippet-" +:+ fragment (sm_uri m).

(** The height [updateHeight] computes for a model of [lineCount] lines. *)
Definition snippet_height (lineCount : nat) : string :=
  px (Nat.max (lineCount + 1) 4 * lineHeight svc).

(** [div.style.height] *)
Definition style_height (div : nat) (st : State) : string :=
  default EmptyString (heights st !! div).

(** The closure [updateHeight] of one snippet; [lineCount] is what
    [model.getLineCount()] answers when it is called. *)
Definition updateHeight (editor : Editor) (lineCount : nat) (initial : bool)
    (st : State) : State :=
  let height := snippet_height lineCount in
  if decide (style_height (ed_div editor) st ≠ height) then
    let st1 := emit [EvSetHeight (ed_div editor) height;
                     EvEditorLayout (ed_id editor)]
                 (set_heights (<[ed_div editor := height]> (heights st)) st) in
    if initial then st1 else scanDomNode st1
  else st.

(** The body of [model.snippets.forEach((snippet, i) => ...)]; [anchors] are
    the elements with an id below [innerContent], in document order.  A
    selector that [querySelector] rejects makes the call throw.  When the
    lookup finds nothing [div] is [null]; nothing in the source checks for
    that, and the model lets the creation of the editor on [null] throw. *)
Definition mount_snippet (anchors : list Element) (i : nat)
    (snippet : SnippetModel) (st : State) : State * Outcome :=
  let id := anchor_id snippet in
  match querySelector svc anchors (String hash_sign (escape_dots id)) with
  | None => (st, Threw SyntaxError)
  | Some None => (st, Threw TypeError)
  | Some (Some div) =>
      let (eid, st1) := fresh st in
      let editor := {| ed_id := eid; ed_div := el_node div; ed_model := snippet |} in
      let st2 := push_content (DEditor editor)
                   (emit [EvCreateEditor eid (el_node div)] st1) in
      let st3 := updateHeight editor (sm_lineCount snippet) true st2 in
      let (cid, st4) := fresh st3 in
      let st5 := push_content (DContentChange cid editor) st4 in
      let (tid, st6) := fresh st5 in
      let st7 := push_content (DThemeEditor tid editor) st6 in
      (match i with
       | O => emit [EvEditorFocus eid] st7
       | S _ => st7
       end, Done)
  end.

Fixpoint mount_snippets (anchors : list Element) (i : nat)
    (snips : list SnippetModel) (st : State) : State * Outcome :=
  match snips with
  | [] => (st, Done)
  | snippet :: rest =>
      match mount_snippet anchors i snippet st with
      | (st', Done) => mount_snippets anchors (S i) rest st'
      | thrown => thrown
      end
  end.

(** ** DocumentRenderer *)

(** [marked(markdown, { renderer })] seen through [renderer.code]: the
    placeholder returned for each code block, in encounter order, [i] being
    the counter of the closure.  [None] when [model.snippets[i]] is
    [undefined], where the callback throws. *)
Fixpoint render_code_blocks (snips : list SnippetModel) (i : nat)
    (blocks : list Block) : option (list string) :=
  match blocks with
  | [] => Some []
  | Prose _ :: rest => render_code_blocks snips i rest
  | Code _ _ :: rest =>
      match snips !! i with
      | Some m =>
          cons (placeholder_html (anchor_id m))
            <$> render_code_blocks snips (S i) rest
      | None => None
      end
  end.

(** The elements [innerHTML] creates for the placeholders, with node
    identities from [node] on. *)
Fixpoint parse_anchors (node : nat) (htmls : list string) : list Element :=
  match htmls with
  | [] => []
  | html :: rest =>
      match parse_placeholder html with
      | Some (id, cls) =>
          {| el_node := node; el_id := id; el_classes := [cls] |}
            :: parse_anchors (S node) rest
      | None => parse_anchors (S node) rest
      end
  end.

(** The elements of a prose block, with node identities from [node] on. *)
Definition prose_nodes (node : nat) (html : string) : list Element :=
  imap (fun k '(id, classes) =>
          {| el_node := node + k; el_id := id; el_classes := classes |})
       (prose_elements svc html).

(** The number of elements with an id in the prose of a document. *)
Fixpoint prose_count (blocks : list Block) : nat :=
  match blocks with
  | [] => 0
  | Prose html :: rest => length (prose_elements svc html) + prose_count rest
  | Code _ _ :: rest => prose_count rest
  end.

(** The elements with an id that [innerContent.innerHTML = marked(...)]
    puts below [innerContent], in document order: those of the prose and, in
    the place of each code block, the placeholder [renderer.code] returned
    for it.  The placeholders take their identities from [node] on, as in
    [parse_anchors], the elements of the prose from [pnode] on.  The markup
    of a prose block is taken to leave the placeholders that follow it in
    place: it opens no comment or raw-text element that would swallow
    them. *)
Fixpoint document_elements (node pnode : nat) (blocks : list Block)
    (htmls : list string) : list Element :=
  match blocks with
  | [] => []
  | Prose html :: rest =>
      prose_nodes pnode html
        ++ document_elements node (pnode + length (prose_elements svc html))
             rest htmls
  | Code _ _ :: rest =>
      match htmls with
      | html :: htmls' =>
          match parse_placeholder html with
          | Some (id, cls) =>
              {| el_node := node; el_id := id; el_classes := [cls] |}
                :: document_elements (S node) pnode rest htmls'
          | None => document_elements (S node) pnode rest htmls'
          end
      | [] => document_elements node pnode rest []
      end
  end.

Definition markup_roots (node : nat) (els : list MarkupElement) : list Root :=
  imap (fun k me =>
          {| root_node := node + k; root_classes := me_classes me;
             root_anchors := [];
             root_shortcuts := map (fun c => (c, [])) (me_commands me) |}) els.

(** [style(div)]: the colours and the font of the editor background, which
    follow the theme, are copied to the element. *)
Definition style (div : nat) (st : State) : State :=
  emit [EvStyle div (theme st)] st.

(** The branch of [setInput] for a path that ends in [.html]. *)
Definition render_markup (inp : WalkThroughInput) (text : string)
    (st : State) : State :=
  let els := parse_markup svc text in
  let st1 := emit [EvSetMarkup text]
               (set_content (markup_roots (nextId st) els)
                  (set_nextId (nextId st + length els) st)) in
  let st2 := decorateContent st1 in
  let st3 := if in_onReady inp
             then emit [EvOnReady (root_node <$> head (content st2))] st2
             else st2 in
  loadTextEditorViewState (in_resource inp) (scanDomNode st3).

(** The Markdown branch of [setInput]. *)
Definition render_markdown (inp : WalkThroughInput) (model : WalkThroughModel)
    (text : string) (st : State) : State * Outcome :=
  let blocks := marked_blocks svc (expandMacros text) in
  match render_code_blocks (snippets model) 0 blocks with
  | None => (st, Threw TypeError)
  | Some htmls =>
      let (rnode, st1) := fresh st in
      let anchors := parse_anchors (nextId st1) htmls in
      let elements :=
        document_elements (nextId st1) (nextId st1 + length htmls)
          blocks htmls in
      let st2 := set_nextId (nextId st1 + length htmls + prose_count blocks)
                   st1 in
      let innerContent :=
        {| root_node := rnode; root_classes := ["walkThroughContent"];
           root_anchors := anchors; root_shortcuts := [] |} in
      let st3 := style rnode st2 in
      let (sid, st4) := fresh st3 in
      let st5 := push_content (DThemeStyle sid rnode) st4 in
      let st6 := emit [EvAppendRoot rnode]
                   (set_content (content st5 ++ [innerContent]) st5) in
      match mount_snippets elements 0 (snippets model) st6 with
      | (st7, Done) =>
          let st8 := if in_onReady inp
                     then emit [EvOnReady (Some rnode)] st7 else st7 in
          (loadTextEditorViewState (in_resource inp) (scanDomNode st8), Done)
      | thrown => thrown
      end
  end.

(** Modelled from the spec: the handles of a disposal group are released
    together.  [dispose(disposables)] of [vs/base/common/lifecycle] disposes
    every member, in order; the callers store the empty array it returns. *)
Definition dispose_all (ds : list Disposable) (st : State) : State :=
  emit (map (fun d => EvDispose (disposable_id d)) ds) st.

(** ** WalkThroughPart *)

(** [setInput], up to the point where it waits for [input.resolve(true)].
    Modelled from the spec: a document that is set supersedes the current
    one; [super.setInput], of the base editor, stores the input before the
    resolution starts. *)
Definition setInput (inp : WalkThroughInput) (st : State) : State :=
  let st1 := match input st with
             | Some current => saveTextEditorViewState (in_resource current) st
             | None => st
             end in
  let st2 := set_contentDisposables [] (dispose_all (contentDisposables st1) st1) in
  let st3 := emit [EvClearContent] (set_content [] st2) in
  set_input (Some inp) st3.

(** The continuation of [setInput], run when [input.resolve(true)] has
    produced [model].  It uses the [input] of its own call. *)
Definition setInput_resolved (inp : WalkThroughInput) (model : WalkThroughModel)
    (st : State) : State * Outcome :=
  let text := join_lines (main_lines model) in
  if endsWith (path (in_resource inp)) ".html"
  then (render_markup inp text st, Done)
  else render_markdown inp model text st.

Definition COMPACT : string := "max-height-690px".

Definition toggle_compact (height : nat) (r : Root) : Root :=
  {| root_node := root_node r;
     root_classes := if (height <=? 690)%nat
                     then classList_add COMPACT (root_classes r)
                     else classList_remove COMPACT (root_classes r);
     root_anchors := root_anchors r; root_shortcuts := root_shortcuts r |}.

Definition layout (width height : nat) (st : State) : State :=
  let st1 := set_content_size (Some (px height, px width)) st in
  let st2 := match content st1 with
             | innerContent :: others =>
                 set_content (toggle_compact height innerContent :: others) st1
             | [] => st1
             end in
  let st3 := emit (map (fun e => EvEditorLayout (ed_id e))
                       (editors_of (contentDisposables st2))) st2 in
  scanDomNode st3.

(** [focus]: [this.content.focus()] *)
Definition focus (st : State) : State := emit [EvFocus] st.

(** [super.clearInput], of the base editor, forgets the input. *)
Definition clearInput (st : State) : State :=
  let st1 := match input st with
             | Some current => saveTextEditorViewState (in_resource current) st
             | None => st
             end in
  set_input None st1.

(** [shutdown]; [super.shutdown] has nothing to add. *)
Definition shutdown (st : State) : State :=
  match input st with
  | Some current => saveTextEditorViewState (in_resource current) st
  | None => st
  end.

(** [dispose]; [super.dispose], of the base editor, forgets the input. *)
Definition dispose (st : State) : State :=
  let st1 := set_contentDisposables [] (dispose_all (contentDisposables st) st) in
  let st2 := set_disposables [] (dispose_all (disposables st1) st1) in
  set_input None st2.

(** *** Notifications *)

(** A model changes its content and now has [lineCount] lines: the listener
    registered for editor [ed] runs [updateHeight(false)]. *)
Definition on_content_change (ed : nat) (lineCount : nat) (d : Disposable)
    (st : State) : State :=
  match d with
  | DContentChange _ editor =>
      if decide (ed_id editor = ed)
      then updateHeight editor lineCount false st
      else st
  | _ => st
  end.

Definition contentChanged (ed : nat) (lineCount : nat) (st : State) : State :=
  fold_left (fun s d => on_content_change ed lineCount d s)
            (contentDisposables st) st.

Definition on_theme_change (t : string) (d : Disposable) : list Event :=
  match d with
  | DThemeStyle _ root => [EvStyle root t]
  | DThemeEditor _ editor => [EvEditorTheme (ed_id editor) t]
  | _ => []
  end.

Definition themeChanged (t : string) (st : State) : State :=
  emit (concat (map (on_theme_change t) (contentDisposables st)))
       (set_theme t st).

(** *** The click handler *)

(** A node on the way from [event.target] to the document. *)
Inductive DomNode :=
| NAnchor (href hash : string)
| NButton (data_href : option string)
| NCurrentTarget
| NOther.

(** What [this.content.querySelector(hash)] does: it throws, finds nothing,
    or finds an element, whose bounding rectangle has the given top. *)
Inductive QueryResult :=
| QThrows
| QNull
| QFound (top : Z).

Record ClickEvent := {
  (** [event.target] and its ancestors, innermost first *)
  ev_chain : list DomNode;
  (** [href] of the [base] element or of [window.location] *)
  ev_baseHref : string;
  ev_querySelector : string -> QueryResult;
  (** top of the bounding rectangle of [this.content] *)
  ev_containerTop : Z
}.

(** [query.from = value], followed later by [JSON.stringify(query)].  A
    property put on an array is not serialised; the file is in strict mode,
    where a property cannot be put on [null] or on a primitive value. *)
Fixpoint set_field (k : string) (v : JSON) (fields : list (string * JSON))
    : list (string * JSON) :=
  match fields with
  | [] => [(k, v)]
  | (k', v') :: rest =>
      if String.eqb k' k then (k, v) :: rest else (k', v') :: set_field k v rest
  end.

Definition put_from (from : string) (q : JSON) : option JSON :=
  match q with
  | JObj fields => Some (JObj (set_field "from" (JStr from) fields))
  | JArr items => Some (JArr items)
  | _ => None
  end.

Definition addFrom (uri : URI) (st : State) : URI + Error :=
  if negb (String.eqb (scheme uri) "command") then inl uri
  else
    match (if is_empty_string (query uri) then Some (JObj [])
           else json_parse svc (query uri)) with
    | None => inr SyntaxError
    | Some q =>
        match input st with
        | None => inr TypeError
        | Some current =>
            match put_from (in_telemetryFrom current) q with
            | None => inr TypeError
            | Some q' => inl (uri_with_query uri (json_stringify svc q'))
            end
        end
    end.

(** [this.openerService.open(this.addFrom(URI.parse(href)))] *)
Definition open_link (href : string) (st : State) : State * Outcome :=
  match addFrom (uri_parse svc href) st with
  | inl uri => (emit [EvOpen uri] st, Done)
  | inr e => (st, Threw e)
  end.

Definition preventDefault (st : State) : State := emit [EvPreventDefault] st.

(** The loop of the click listener over the chain of nodes. *)
Fixpoint click_walk (ev : ClickEvent) (chain : list DomNode) (st : State)
    : State * Outcome :=
  match chain with
  | [] => (st, Done)
  | node :: parents =>
      match node with
      | NAnchor href hash =>
          if is_empty_string href then click_walk ev parents st
          else if contains (ev_baseHref ev) href && negb (is_empty_string hash)
          then
            match ev_querySelector ev hash with
            | QThrows => (st, Threw SyntaxError)
            | QNull => (preventDefault st, Done)
            | QFound targetTop =>
                (preventDefault
                   (scrollbar_updateState
                      (Some (targetTop - ev_containerTop ev)%Z) None st), Done)
            end
          else
            match open_link href st with
            | (st', Done) => (preventDefault st', Done)
            | thrown => thrown
            end
      | NButton data_href =>
          match data_href with
          | Some href =>
              if is_empty_string href then (st, Done) else open_link href st
          | None => (st, Done)
          end
      | NCurrentTarget => (st, Done)
      | NOther => click_walk ev parents st
      end
  end.

Definition click (ev : ClickEvent) (st : State) : State * Outcome :=
  click_walk ev (ev_chain ev) st.

(** *** The life of the component *)

(** The state [createEditor] leaves, for a stored memento [m]. *)
Definition createEditor
    (m : option (gmap string (gmap nat IWalkThroughEditorViewState))) : State :=
  {| input := None; position := None; memento := m;
     scroll := {| scrollTop := 0; scrollLeft := 0 |};
     contentDisposables := []; disposables := [DScrollbar 0];
     content := []; content_size := None; heights := ∅;
     theme := EmptyString; nextId := 1; log := [] |}.

(** What can happen to the component. *)
Inductive Op :=
| OpSetInput (inp : WalkThroughInput)
| OpResolved (inp : WalkThroughInput) (model : WalkThroughModel)
| OpLayout (width height : nat)
| OpFocus
| OpClearInput
| OpShutdown
| OpDispose
| OpSetPosition (p : option nat)
| OpScrolled (s : IViewState)
| OpContentChanged (ed : nat) (lineCount : nat)
| OpThemeChanged (t : string)
| OpClick (ev : ClickEvent).

(** An exception leaves the state as it is when it is thrown. *)
Definition step (st : State) (op : Op) : State :=
  match op with
  | OpSetInput inp => setInput inp st
  | OpResolved inp model => fst (setInput_resolved inp model st)
  | OpLayout width height => layout width height st
  | OpFocus => focus st
  | OpClearInput => clearInput st
  | OpShutdown => shutdown st
  | OpDispose => dispose st
  | OpSetPosition p => set_position p st
  | OpScrolled s => set_scroll s st
  | OpContentChanged ed lineCount => contentChanged ed lineCount st
  | OpThemeChanged t => themeChanged t st
  | OpClick ev => fst (click ev st)
  end.

Definition run (ops : list Op) (st : State) : State := fold_left step ops st.


End Component.

(** ** Vocabulary of the properties *)

(** The disposables disposed along a trace. *)
Definition disposed_event (e : Event) : option nat :=
  match e with
  | EvDispose id => Some id
  | _ => None
  end.

Definition disposed (evs : list Event) : list nat := omap disposed_event evs.

(** The disposables the component holds. *)
Definition live (st : State) : list nat :=
  map disposable_id (contentDisposables st ++ disposables st).

(** Identities are handed out once: what has been disposed and what is held
    are distinct identities below the counter. *)
Definition consistent (st : State) : Prop :=
  NoDup (disposed (log st) ++ live st)
  /\ Forall (fun id => id < nextId st) (disposed (log st) ++ live st).

(** [st'] comes from [st] without disposing anything: the trace grows by calls
    that dispose nothing, the content disposables grow by fresh members. *)
Record grows (st st' : State) : Prop := {
  grows_log : exists evs, log st' = log st ++ evs /\ disposed evs = [];
  grows_content : exists new,
    contentDisposables st' = contentDisposables st ++ new
    /\ NoDup (map disposable_id new)
    /\ Forall (fun d => nextId st <= disposable_id d < nextId st') new;
  grows_disposables : disposables st' = disposables st;
  grows_nextId : nextId st <= nextId st'
}.

(** The compact presentation state: the first element child of the content
    carries the class [max-height-690px]. *)
Definition compact (st : State) : bool :=
  match content st with
  | innerContent :: _ => bool_decide (COMPACT ∈ root_classes innerContent)
  | [] => false
  end.

(** Nodes the click listener walks past. *)
Definition passed (n : DomNode) : bool :=
  match n with
  | NOther => true
  | NAnchor href _ => is_empty_string href
  | _ => false
  end.

(** The number of fenced code blocks among the blocks of a document. *)
Fixpoint count_code (blocks : list Block) : nat :=
  match blocks with
  | [] => 0
  | Prose _ :: rest => count_code rest
  | Code _ _ :: rest => S (count_code rest)
  end.


(** The host element and the model of an editor. *)
Definition binding (e : Editor) : nat * SnippetModel := (ed_div e, ed_model e).

(** [save(doc, slot, vs)]: the view state [vs] is saved for [doc] while the
    pane is in [slot]. *)
Definition save_as (svc : Services) (entry : URI * option nat * IViewState)
    (st : State) : State :=
  let '(doc, slot, vs) := entry in
  saveTextEditorViewState svc doc (set_scroll vs (set_position slot st)).

(** The editor of a snippet mounted on the element [div] when the counter of
    identities stands at [n]. *)
Definition mounted_editor (n : nat) (div : Element) (snippet : SnippetModel)
    : Editor :=
  {| ed_id := n; ed_div := el_node div; ed_model := snippet |}.

(** A whole resize of a snippet after a content change: height, layout,
    rescan. *)
Definition resize_calls (svc : Services) (lineCount : nat) (evs : list Event)
    : Prop :=
  exists div ed,
    evs = [EvSetHeight div (snippet_height svc lineCount);
           EvEditorLayout ed; EvScanDomNode].

(** The operations that dispose the content disposables. *)
Definition releases (op : Op) : bool :=
  match op with
  | OpSetInput _ | OpDispose => true
  | _ => false
  end.



(** The placeholders of the render plan of a resolved Markdown document: what
    [renderer.code] returns for its code blocks, in encounter order. *)
Definition plan (svc : Services) (model : WalkThroughModel) : option (list string) :=
  render_code_blocks (snippets model) 0
    (marked_blocks svc (expandMacros svc (join_lines (main_lines model)))).

(** The root element mounted for a plan, its identity being [node]. *)
Definition plan_root (node : nat) (htmls : list string) : Root :=
  {| root_node := node; root_classes := ["walkThroughContent"];
     root_anchors := parse_anchors (S node) htmls; root_shortcuts := [] |}.







(** An anchor the click listener takes for a link inside the document. *)
Definition in_document (ev : ClickEvent) (href hash : string) : bool :=
  contains (ev_baseHref ev) href && negb (is_empty_string hash).



(** The editors whose content-change listener, and whose theme listener, is
    held. *)
Definition content_listener (d : Disposable) : option Editor :=
  match d with
  | DContentChange _ e => Some e
  | _ => None
  end.

Definition theme_listener (d : Disposable) : option Editor :=
  match d with
  | DThemeEditor _ e => Some e
  | _ => None
  end.

(** The editors held are those with a content-change listener and those with
    a theme listener, in the same order. *)
Definition subscribed (st : State) : Prop :=
  omap content_listener (contentDisposables st)
  = editors_of (contentDisposables st)
  /\ omap theme_listener (contentDisposables st)
     = editors_of (contentDisposables st).

(** The editors told of a theme along a trace. *)
Definition themed_event (e : Event) : option (nat * string) :=
  match e with
  | EvEditorTheme ed t => Some (ed, t)
  | _ => None
  end.

Definition themed (evs : list Event) : list (nat * string) :=
  omap themed_event evs.

Definition not_lparen (c : ascii) : bool := negb (is_lparen c).


(** The view state the store holds for the document with key [key] and the
    pane slot [slot]. *)
Definition store_entry (key : string) (slot : nat) (st : State)
    : option IWalkThroughEditorViewState :=
  match memento st with
  | Some editorViewStateMemento =>
      match editorViewStateMemento !! key with
      | Some fileViewState => fileViewState !! slot
      | None => None
      end
  | None => None
  end.

(** The operations that call [saveTextEditorViewState]. *)
Definition saves (op : Op) : bool :=
  match op with
  | OpSetInput _ | OpClearInput | OpShutdown => true
  | _ => false
  end.

(** What the click listener adds to the trace after the opener service has
    been called, for the node that matched. *)
Definition after_open (node : DomNode) : list Event :=
  match node with
  | NAnchor _ _ => [EvPreventDefault]
  | _ => []
  end.

(** The nodes at which the walk of the click listener ends without any
    effect. *)
Definition inert (rest : list DomNode) : bool :=
  match rest with
  | [] => true
  | NCurrentTarget :: _ => true
  | NButton None :: _ => true
  | NButton (Some href) :: _ => is_empty_string href
  | _ => false
  end.

(** The elements restyled when the theme changes, and the calls of
    [style] along a trace. *)
Definition style_listener (d : Disposable) : option nat :=
  match d with
  | DThemeStyle _ root => Some root
  | _ => None
  end.

Definition styled_event (e : Event) : option (nat * string) :=
  match e with
  | EvStyle root t => Some (root, t)
  | _ => None
  end.

Definition styled (evs : list Event) : list (nat * string) := omap styled_event evs.

(** ** A small instance, for examples *)

Definition split_at (sep : nat) (s : string) : string * string :=
  (fix go (s : string) : string * string :=
     match s with
     | String c s' =>
         if is_char sep c then (EmptyString, s')
         else let (a, b) := go s' in (String c a, b)
     | EmptyString => (EmptyString, EmptyString)
     end) s.

(** A stand-in Markdown engine: every tilde is a fenced code block, every
    other character is prose; the prose of a number sign is an element with
    the id [snippet-h], the other prose has no element with an id.  The
    selectors the model does not read match nothing, and a rescan finds the
    offsets it held. *)
Fixpoint demo_blocks (s : string) : list Block :=
  match s with
  | String c s' =>
      (if is_char 126 c then Code EmptyString EmptyString
       else Prose (String c EmptyString)) :: demo_blocks s'
  | EmptyString => []
  end.

Definition demo_stringify (j : JSON) : string :=
  match j with
  | JObj fields =>
      fold_left (fun acc '(k, v) =>
                   acc +:+ k +:+ "=" +:+
                   match v with JStr x => x | _ => "?" end +:+ ";")
                fields EmptyString
  | _ => "?"
  end.

Definition demo : Services := {|
  Keybinding := string;
  lookupKeybindings := fun c =>
    if String.eqb c "workbench.action.files.save" then ["Ctrl+S"] else [];
  getLabelFor := fun k => k;
  marked_blocks := demo_blocks;
  prose_elements := fun html =>
    if String.eqb html "#" then [("snippet-h", [])] else [];
  querySelector_complex := fun _ _ => Some None;
  rescan := fun _ offsets => offsets;
  parse_markup := fun _ => [{| me_classes := ["page"]; me_commands := ["foo.bar"] |}];
  uri_toString := fun u => scheme u +:+ ":" +:+ path u;
  uri_parse := fun s =>
    let (sch, rest) := split_at 58 s in
    let (p, q) := split_at 63 rest in
    {| scheme := sch; authority := EmptyString; path := p; query := q;
       fragment := EmptyString |};
  json_parse := fun s => if String.eqb s "{}" then Some (JObj []) else
                         if String.eqb s "[]" then Some (JArr []) else None;
  json_stringify := demo_stringify;
  lineHeight := 17
|}.

(** The same services on a page whose scrollable extent ends at the offset
    100: a rescan brings the offsets held back within it. *)
Definition demo_short : Services := {|
  Keybinding := string;
  lookupKeybindings := lookupKeybindings demo;
  getLabelFor := getLabelFor demo;
  marked_blocks := marked_blocks demo;
  prose_elements := prose_elements demo;
  querySelector_complex := querySelector_complex demo;
  rescan := fun _ offsets =>
    {| scrollTop := Z.min (scrollTop offsets) 100;
       scrollLeft := scrollLeft offsets |};
  parse_markup := parse_markup demo;
  uri_toString := uri_toString demo;
  uri_parse := uri_parse demo;
  json_parse := json_parse demo;
  json_stringify := json_stringify demo;
  lineHeight := lineHeight demo
|}.

Definition demo_uri (p f : string) : URI :=
  {| scheme := "walkThrough"; authority := EmptyString; path := p;
     query := EmptyString; fragment := f |}.

Definition demo_input (p : string) : WalkThroughInput :=
  {| in_resource := demo_uri p EmptyString; in_telemetryFrom := "welcome";
     in_onReady := true |}.

Definition demo_snippet (f : string) (lines : nat) : SnippetModel :=
  {| sm_uri := demo_uri "/doc.md" f; sm_lineCount := lines |}.

Definition demo_model (text : string) (snips : list SnippetModel)
    : WalkThroughModel :=
  {| main_lines := [text]; snippets := snips |}.

(** Two documents with one code block each. *)
Definition doc_a : WalkThroughInput := demo_input "/a.md".
Definition doc_b : WalkThroughInput := demo_input "/b.md".
Definition model_a : WalkThroughModel :=
  demo_model "Try ~ now" [demo_snippet "0.a" 2].
Definition model_b : WalkThroughModel :=
  demo_model "~ is all" [demo_snippet "0.b" 7].

(** * Properties *)

(** ** Characters and strings *)

Lemma append_cons (x : ascii) (a b : string) :
  String x a +:+ b = String x (a +:+ b).
Proof. reflexivity. Qed.

Lemma append_nil (b : string) : EmptyString +:+ b = b.
Proof. reflexivity. Qed.

Lemma append_assoc (a b c : string) : (a +:+ b) +:+ c = a +:+ (b +:+ c).
Proof.
  induction a as [|x a IH]; [reflexivity|].
  rewrite !append_cons. now rewrite IH.
Qed.

Lemma append_length (a b : string) :
  String.length (a +:+ b) = String.length a + String.length b.
Proof.
  induction a as [|x a IH]; [reflexivity|].
  rewrite append_cons. simpl. now rewrite IH.
Qed.

Lemma is_k_kb c : is_k c = true -> is_kb_char c = true.
Proof.
  unfold is_k, is_kb_char, is_lower, is_upper, is_digit, is_char, between.
  intros H. apply orb_true_iff in H as [H|H]; apply Nat.eqb_eq in H;
    rewrite H; reflexivity.
Qed.

Lemma is_b_kb c : is_b c = true -> is_kb_char c = true.
Proof.
  unfold is_b, is_kb_char, is_lower, is_upper, is_digit, is_char, between.
  intros H. apply orb_true_iff in H as [H|H]; apply Nat.eqb_eq in H;
    rewrite H; reflexivity.
Qed.

Lemma is_k_not_b c : is_k c = true -> is_b c = false.
Proof.
  unfold is_k, is_b, is_char.
  intros H. apply orb_true_iff in H as [H|H]; apply Nat.eqb_eq in H;
    rewrite H; reflexivity.
Qed.

Lemma is_k_not_lparen c : is_k c = true -> is_lparen c = false.
Proof.
  unfold is_k, is_lparen, is_char.
  intros H. apply orb_true_iff in H as [H|H]; apply Nat.eqb_eq in H;
    rewrite H; reflexivity.
Qed.

Lemma is_lparen_not_kb c : is_lparen c = true -> is_kb_char c = false.
Proof.
  unfold is_lparen, is_kb_char, is_lower, is_upper, is_digit, is_char, between.
  intros H. apply Nat.eqb_eq in H. rewrite H. reflexivity.
Qed.

Lemma is_lparen_not_rparen c : is_lparen c = true -> is_rparen c = false.
Proof.
  unfold is_lparen, is_rparen, is_char.
  intros H. apply Nat.eqb_eq in H. rewrite H. reflexivity.
Qed.

Lemma is_rparen_not_kb c : is_rparen c = true -> is_kb_char c = false.
Proof.
  unfold is_rparen, is_kb_char, is_lower, is_upper, is_digit, is_char, between.
  intros H. apply Nat.eqb_eq in H. rewrite H. reflexivity.
Qed.

Lemma is_lparen_lparen : is_lparen lparen = true.
Proof. reflexivity. Qed.

Lemma is_rparen_rparen : is_rparen rparen = true.
Proof. reflexivity. Qed.

(** Some values of the string functions. *)
Example endsWith_values :
  endsWith "/guide/page.html" ".html" = true
  /\ endsWith "/guide/page.md" ".html" = false
  /\ endsWith "html" ".html" = false.
Proof. repeat split. Qed.

Example contains_values :
  contains "file:///app/" "file:///app/index.html#top" = true
  /\ contains "file:///app/" "command:workbench.action.showCommands" = false
  /\ contains EmptyString "x" = true.
Proof. repeat split. Qed.

Example join_lines_values :
  join_lines ["# Title"; "text"] = "# Title" +:+ newline +:+ "text"
  /\ join_lines [] = EmptyString.
Proof. repeat split. Qed.

Lemma append_cancel_r (a b c : string) : a +:+ c = b +:+ c -> a = b.
Proof.
  revert b. induction a as [|x a IH]; intros [|y b] E.
  - reflexivity.
  - apply (f_equal String.length) in E.
    rewrite append_nil, append_cons in E. simpl in E.
    rewrite append_length in E. lia.
  - apply (f_equal String.length) in E.
    rewrite append_nil, append_cons in E. simpl in E.
    rewrite append_length in E. lia.
  - rewrite !append_cons in E. inversion E; subst. f_equal. now apply IH.
Qed.

(** ** MacroExpander *)

Lemma span_kb_rest_length (t run rest : string) :
  span_kb t = (run, rest) -> String.length rest <= String.length t.
Proof.
  revert run rest. induction t as [|x t IH]; simpl; intros run rest H.
  - inversion H; simpl; lia.
  - destruct (is_kb_char x).
    + destruct (span_kb t) as [run' rest'] eqn:E. inversion H; subst.
      specialize (IH _ _ eq_refl). lia.
    + inversion H; subst; simpl; lia.
Qed.

Lemma match_kb_shorter (s kb rest : string) :
  match_kb s = Some (kb, rest) -> String.length rest < String.length s.
Proof.
  destruct s as [|k [|b [|p r]]]; simpl; try discriminate.
  destruct (is_k k && is_b b && is_lparen p); [|discriminate].
  destruct (span_kb r) as [run rest'] eqn:E.
  apply span_kb_rest_length in E.
  destruct run as [|x run]; [discriminate|].
  destruct rest' as [|q rest'']; [discriminate|].
  destruct (is_rparen q); [|discriminate].
  intros H; inversion H; subst. simpl in *. lia.
Qed.

(** A run of class characters is read up to the first other character. *)
Lemma span_kb_run (run : string) (q : ascii) (rest : string) :
  string_forall is_kb_char run = true -> is_kb_char q = false ->
  span_kb (run +:+ String q rest) = (run, String q rest).
Proof.
  intros Hrun Hq. induction run as [|x run IH].
  - rewrite append_nil. simpl. now rewrite Hq.
  - rewrite append_cons. simpl in *.
    apply andb_true_iff in Hrun as [Hx Hrun].
    rewrite Hx, (IH Hrun). reflexivity.
Qed.

(** When the run of [r] stops inside [r], text added behind [r] is not
    looked at. *)
Lemma span_kb_app_stop (r t run : string) (q : ascii) (rest : string) :
  span_kb r = (run, String q rest) ->
  span_kb (r +:+ t) = (run, String q rest +:+ t).
Proof.
  revert run. induction r as [|x r IH]; intros run H; simpl in H.
  - discriminate.
  - rewrite append_cons. simpl. destruct (is_kb_char x) eqn:Hx.
    + destruct (span_kb r) as [run' rest'] eqn:E. inversion H; subst.
      now rewrite (IH _ eq_refl).
    + inversion H; subst. reflexivity.
Qed.

(** When all of [r] is in the class, the run goes on into the text behind. *)
Lemma span_kb_app_through (r t run : string) :
  span_kb r = (run, EmptyString) ->
  span_kb (r +:+ t) = (r +:+ fst (span_kb t), snd (span_kb t)).
Proof.
  revert run. induction r as [|x r IH]; intros run H; simpl in H.
  - rewrite !append_nil. now destruct (span_kb t).
  - rewrite !append_cons. simpl. destruct (is_kb_char x) eqn:Hx.
    + destruct (span_kb r) as [run' rest'] eqn:E. inversion H; subst.
      now rewrite (IH _ eq_refl).
    + inversion H.
Qed.

Lemma match_kb_macro (k b : ascii) (kb post : string) :
  is_k k = true -> is_b b = true ->
  kb <> EmptyString -> string_forall is_kb_char kb = true ->
  match_kb (macro k b kb +:+ post) = Some (kb, post).
Proof.
  intros Hk Hb Hne Hkb. unfold macro.
  rewrite !append_cons, append_assoc, append_cons, append_nil.
  unfold match_kb. rewrite Hk, Hb, is_lparen_lparen. simpl andb. cbv iota.
  rewrite (span_kb_run kb rparen post Hkb (is_rparen_not_kb _ is_rparen_rparen)).
  destruct kb as [|c kb]; [congruence|].
  now rewrite is_rparen_rparen.
Qed.

Lemma span_kb_macro (k b : ascii) (kb post : string) :
  is_k k = true -> is_b b = true ->
  exists rest,
    span_kb (macro k b kb +:+ post)
    = (String k (String b EmptyString), String lparen rest).
Proof.
  intros Hk Hb. unfold macro. rewrite !append_cons. simpl.
  rewrite (is_k_kb _ Hk), (is_b_kb _ Hb).
  eexists. reflexivity.
Qed.

(** An attempt that starts before a macro never reaches into it: the
    parenthesis of the macro stops every run. *)
Lemma match_kb_before (pre : string) (k b : ascii) (kb post : string) :
  is_k k = true -> is_b b = true -> pre <> EmptyString ->
  match_kb (pre +:+ macro k b kb +:+ post)
  = match match_kb pre with
    | Some (id, rest) => Some (id, rest +:+ macro k b kb +:+ post)
    | None => None
    end.
Proof.
  intros Hk Hb Hne.
  destruct (span_kb_macro k b kb post Hk Hb) as [tail Htail].
  destruct pre as [|c0 [|c1 [|c2 r]]]; [congruence| | |].
  - unfold macro. rewrite !append_cons, append_nil. simpl.
    rewrite (is_k_not_b _ Hk), andb_false_r. reflexivity.
  - unfold macro. rewrite !append_cons, append_nil. simpl.
    rewrite (is_k_not_lparen _ Hk), andb_false_r. reflexivity.
  - rewrite !append_cons. unfold match_kb.
    destruct (is_k c0 && is_b c1 && is_lparen c2); [|reflexivity].
    destruct (span_kb r) as [run rest] eqn:E.
    destruct rest as [|q rest].
    + rewrite (span_kb_app_through _ _ _ E), Htail. simpl.
      destruct r; [|rewrite append_cons]; destruct run; reflexivity.
    + rewrite (span_kb_app_stop _ _ _ _ _ E).
      destruct run as [|x run]; [reflexivity|].
      rewrite append_cons. destruct (is_rparen q); reflexivity.
Qed.

Section Properties.

Variable svc : Services.

Lemma expandMacros_step (c : ascii) (s : string) :
  expandMacros svc (String c s) =
  match match_kb (String c s) with
  | Some (kb, rest) => shortcut_span svc kb +:+ expandMacros svc rest
  | None => String c (expandMacros svc s)
  end.
Proof.
  simp expandMacros.
  destruct (inspect (match_kb (String c s))) as [[[kb rest]|] E];
    simp expandMacros; rewrite E; reflexivity.
Qed.

Lemma expandMacros_macro_here (k b : ascii) (kb post : string) :
  is_k k = true -> is_b b = true ->
  kb <> EmptyString -> string_forall is_kb_char kb = true ->
  expandMacros svc (macro k b kb +:+ post)
  = shortcut_span svc kb +:+ expandMacros svc post.
Proof.
  intros Hk Hb Hne Hkb.
  pose proof (match_kb_macro k b kb post Hk Hb Hne Hkb) as M.
  unfold macro in *. rewrite append_cons in *.
  rewrite expandMacros_step, M. reflexivity.
Qed.

(** The text before a macro, the macro and the text behind it are expanded
    independently of each other. *)
Lemma expandMacros_split (pre : string) (k b : ascii) (kb post : string) :
  is_k k = true -> is_b b = true ->
  kb <> EmptyString -> string_forall is_kb_char kb = true ->
  expandMacros svc (pre +:+ macro k b kb +:+ post)
  = expandMacros svc pre +:+ shortcut_span svc kb +:+ expandMacros svc post.
Proof.
  intros Hk Hb Hne Hkb.
  remember (String.length pre) as n eqn:Hn.
  revert pre Hn. induction n as [n IH] using lt_wf_ind. intros pre Hn.
  destruct pre as [|c pre].
  - rewrite append_nil. simp expandMacros. rewrite append_nil.
    now apply expandMacros_macro_here.
  - pose proof (match_kb_before (String c pre) k b kb post Hk Hb) as M.
    rewrite append_cons in *.
    rewrite !expandMacros_step, M by congruence.
    destruct (match_kb (String c pre)) as [[id rest]|] eqn:E.
    + apply match_kb_shorter in E.
      rewrite (IH (String.length rest)) by (subst n; auto).
      now rewrite append_assoc.
    + rewrite append_cons. f_equal.
      apply (IH (String.length pre)); [subst n; simpl; lia | reflexivity].
Qed.

(** C9. For every macro occurrence [kb(commandId)] in the document body, the
    occurrence is replaced by a [shortcut] element; when the keybinding lookup
    for the command id yields no binding the element holds the fixed label
    ["unbound"], when bindings exist it holds the label of the first binding.
    [expandMacros] is a total function: no case raises an exception.  The
    text before and behind the occurrence is expanded on its own. *)
Theorem expandMacros_keybinding_label (pre : string) (k b : ascii) (kb post : string) :
  is_k k = true -> is_b b = true ->
  kb <> EmptyString -> string_forall is_kb_char kb = true ->
  let element label :=
    "<span class=" +:+ dquote +:+ "shortcut" +:+ dquote +:+ ">"
      +:+ label +:+ "</span>" in
  (lookupKeybindings svc kb = [] ->
   expandMacros svc (pre +:+ macro k b kb +:+ post)
   = expandMacros svc pre +:+ element "unbound" +:+ expandMacros svc post)
  /\ (forall keybinding others,
        lookupKeybindings svc kb = keybinding :: others ->
        expandMacros svc (pre +:+ macro k b kb +:+ post)
        = expandMacros svc pre +:+ element (getLabelFor svc keybinding)
            +:+ expandMacros svc post).
Proof.
  intros Hk Hb Hne Hkb element.
  pose proof (expandMacros_split pre k b kb post Hk Hb Hne Hkb) as E.
  unfold shortcut_span, shortcut_for in E. subst element.
  split.
  - intros L. rewrite L in E. exact E.
  - intros keybinding others L. rewrite L in E. exact E.
Qed.

(** ** ViewStateStore *)

Lemma view_state_eta (vs : IViewState) :
  {| scrollTop := scrollTop vs; scrollLeft := scrollLeft vs |} = vs.
Proof. destruct vs; reflexivity. Qed.

Lemma stored_after_save (d : URI) (slot : nat) (st : State) :
  position st = Some slot ->
  storedViewState svc d (saveTextEditorViewState svc d st)
  = Some {| viewState := scroll st |}.
Proof.
  intros P. unfold storedViewState, saveTextEditorViewState. simpl.
  rewrite P, !lookup_insert_eq, view_state_eta. reflexivity.
Qed.

(** Saving for another document or in another slot leaves the entry of
    [(d, slot)] as it is. *)
Lemma stored_after_other_save (d d' : URI) (slot : nat) (p' : option nat)
    (st : State) :
  position st = p' ->
  uri_toString svc d' <> uri_toString svc d \/ p' <> Some slot ->
  storedViewState svc d
    (set_position (Some slot) (saveTextEditorViewState svc d' st))
  = storedViewState svc d (set_position (Some slot) st).
Proof.
  intros P Hne. unfold storedViewState, saveTextEditorViewState. simpl.
  destruct (decide (uri_toString svc d' = uri_toString svc d)) as [E|E].
  - rewrite E, lookup_insert_eq.
    destruct Hne as [Hne|Hne]; [congruence|].
    rewrite P. destruct p' as [q|].
    + rewrite lookup_insert_ne by congruence.
      destruct (memento st) as [m|]; simpl; [|now rewrite lookup_empty].
      destruct (m !! uri_toString svc d); simpl; [reflexivity|].
      now rewrite lookup_empty.
    + destruct (memento st) as [m|]; simpl; [|now rewrite lookup_empty].
      destruct (m !! uri_toString svc d); simpl; [reflexivity|].
      now rewrite lookup_empty.
  - rewrite lookup_insert_ne by exact E.
    destruct (memento st) as [m|]; simpl; [reflexivity|].
    now rewrite lookup_empty.
Qed.

Lemma stored_set_scroll (d : URI) (vs : IViewState) (st : State) :
  storedViewState svc d (set_scroll vs st) = storedViewState svc d st.
Proof. reflexivity. Qed.

Lemma stored_after_saves (d : URI) (slot : nat)
    (saves : list (URI * option nat * IViewState)) (st : State) :
  Forall (fun '(d', slot', _) =>
            uri_toString svc d' <> uri_toString svc d \/ slot' <> Some slot)
         saves ->
  storedViewState svc d (set_position (Some slot) (fold_right (save_as svc) st saves))
  = storedViewState svc d (set_position (Some slot) st).
Proof.
  induction 1 as [|[[d' slot'] vs] saves Hne _ IH]; [reflexivity|].
  simpl. rewrite stored_after_other_save with (p' := slot');
    [|reflexivity|exact Hne].
  exact IH.
Qed.

(** C3. For every document [d], pane slot [slot] and view state [vs],
    saving [vs] for [(d, slot)] and then loading for [(d, slot)] finds exactly
    [vs] and puts the scrollbar at [vs], wherever it stood ([here]) when the
    load ran; and when, starting from an empty store, no save has been made
    for [(d, slot)], the load finds nothing and leaves the state, hence the
    scroll position, as it is.  In [saves] the latest save comes first. *)
Theorem view_state_round_trip (d : URI) (slot : nat) :
  (forall (vs here : IViewState) (st : State),
     let saved := save_as svc (d, Some slot, vs) st in
     storedViewState svc d saved = Some {| viewState := vs |}
     /\ scroll (loadTextEditorViewState svc d (set_scroll here saved)) = vs)
  /\ (forall (saves : list (URI * option nat * IViewState)) (st : State),
        memento st = None ->
        Forall (fun '(d', slot', _) =>
                  uri_toString svc d' <> uri_toString svc d
                  \/ slot' <> Some slot) saves ->
        let unsaved := set_position (Some slot) (fold_right (save_as svc) st saves) in
        storedViewState svc d unsaved = None
        /\ loadTextEditorViewState svc d unsaved = unsaved).
Proof.
  split.
  - intros vs here st saved.
    assert (E : storedViewState svc d saved = Some {| viewState := vs |}).
    { subst saved. unfold save_as.
      rewrite (stored_after_save d slot) by reflexivity. reflexivity. }
    split; [exact E|].
    unfold loadTextEditorViewState. rewrite stored_set_scroll, E. simpl.
    apply view_state_eta.
  - intros saves st M Hne unsaved.
    assert (E : storedViewState svc d unsaved = None).
    { subst unsaved. rewrite (stored_after_saves d slot saves st Hne).
      unfold storedViewState. simpl. now rewrite M. }
    split; [exact E|].
    unfold loadTextEditorViewState. now rewrite E.
Qed.

End Properties.

Lemma expandMacros_keybinding_label_witness :
  expandMacros demo "press kb(foo.bar)"
  = "press <span class=" +:+ dquote +:+ "shortcut" +:+ dquote
      +:+ ">unbound</span>"
  /\ expandMacros demo "Save with KB(workbench.action.files.save)."
     = "Save with <span class=" +:+ dquote +:+ "shortcut" +:+ dquote
         +:+ ">Ctrl+S</span>.".
Proof.
  split.
  - exact (proj1 (expandMacros_keybinding_label demo "press " "k" "b" "foo.bar"
                    EmptyString eq_refl eq_refl ltac:(discriminate) eq_refl)
                 eq_refl).
  - exact (proj2 (expandMacros_keybinding_label demo "Save with " "K" "B"
                    "workbench.action.files.save" "." eq_refl eq_refl
                    ltac:(discriminate) eq_refl)
                 "Ctrl+S" [] eq_refl).
Defined.

(** An attempt that fails does not hide the macro behind it, and the label
    put in is not scanned again. *)
Example expandMacros_values :
  expandMacros demo "kb(akb(foo.bar)"
  = "kb(a<span class=" +:+ dquote +:+ "shortcut" +:+ dquote +:+ ">unbound</span>"
  /\ expandMacros demo "kb() kb(a b)" = "kb() kb(a b)".
Proof. split; reflexivity. Qed.

Lemma view_state_round_trip_witness :
  let doc := demo_uri "/doc.md" EmptyString in
  let vs := {| scrollTop := 240; scrollLeft := 8 |} in
  let other := (demo_uri "/other.md" EmptyString, Some 1,
                {| scrollTop := 40; scrollLeft := 0 |}) in
  let saved := save_as demo (doc, Some 1, vs) (createEditor None) in
  let unsaved := set_position (Some 1)
                   (fold_right (save_as demo) (createEditor None) [other]) in
  (storedViewState demo doc saved = Some {| viewState := vs |}
   /\ scroll (loadTextEditorViewState demo doc
                (set_scroll {| scrollTop := 0; scrollLeft := 0 |} saved)) = vs)
  /\ memento (createEditor None) = None
  /\ storedViewState demo doc unsaved = None
  /\ loadTextEditorViewState demo doc unsaved = unsaved.
Proof.
  intros doc vs other saved unsaved.
  destruct (view_state_round_trip demo doc 1) as [R U].
  split; [apply R|]. split; [reflexivity|].
  apply (U [other] (createEditor None)).
  - reflexivity.
  - constructor; [|constructor].
    left. intros E. vm_compute in E. discriminate E.
Defined.

(** ** SnippetEditorManager: the height of a snippet *)

Section SnippetHeight.

Variable svc : Services.

(** Distinct pixel counts are distinct strings: comparing the strings, as
    [updateHeight] does, compares the numbers. *)
Lemma px_inj (n m : nat) : px n = px m -> n = m.
Proof.
  unfold px. intros E. apply (pretty_nat_inj n m).
  now apply append_cancel_r in E.
Qed.

Lemma updateHeight_same (editor : Editor) (lineCount : nat) (initial : bool)
    (st : State) :
  style_height (ed_div editor) st = snippet_height svc lineCount ->
  updateHeight svc editor lineCount initial st = st.
Proof.
  intros E. unfold updateHeight. rewrite decide_False; [reflexivity|].
  intros N. apply N. exact E.
Qed.

Lemma updateHeight_changed (editor : Editor) (lineCount : nat) (initial : bool)
    (st : State) :
  style_height (ed_div editor) st <> snippet_height svc lineCount ->
  updateHeight svc editor lineCount initial st
  = let st1 :=
      emit [EvSetHeight (ed_div editor) (snippet_height svc lineCount);
            EvEditorLayout (ed_id editor)]
        (set_heights (<[ed_div editor := snippet_height svc lineCount]> (heights st))
           st) in
    if initial then st1 else scanDomNode svc st1.
Proof.
  intros N. unfold updateHeight. now rewrite decide_True.
Qed.

Lemma updateHeight_height (editor : Editor) (lineCount : nat) (initial : bool)
    (st : State) :
  style_height (ed_div editor) (updateHeight svc editor lineCount initial st)
  = snippet_height svc lineCount.
Proof.
  destruct (decide (style_height (ed_div editor) st = snippet_height svc lineCount))
    as [E|N].
  - now rewrite updateHeight_same.
  - rewrite updateHeight_changed by exact N.
    unfold style_height. destruct initial; simpl; now rewrite lookup_insert_eq.
Qed.

(** What [updateHeight] appends to the trace. *)
Lemma updateHeight_log (editor : Editor) (lineCount : nat) (initial : bool)
    (st : State) :
  log (updateHeight svc editor lineCount initial st)
  = log st ++
    (if decide (style_height (ed_div editor) st = snippet_height svc lineCount)
     then []
     else [EvSetHeight (ed_div editor) (snippet_height svc lineCount);
           EvEditorLayout (ed_id editor)]
            ++ (if initial then [] else [EvScanDomNode])).
Proof.
  destruct (decide (style_height (ed_div editor) st = snippet_height svc lineCount))
    as [E|N].
  - rewrite updateHeight_same by exact E. now rewrite app_nil_r.
  - rewrite updateHeight_changed by exact N.
    destruct initial; simpl; rewrite <- ?app_assoc; reflexivity.
Qed.

(** [updateHeight] touches the height store and the trace and, through the
    rescan that follows a change made by the listener, the offsets of the
    scroll surface; nothing else. *)
Lemma updateHeight_frame (editor : Editor) (lineCount : nat) (initial : bool)
    (st : State) :
  let st' := updateHeight svc editor lineCount initial st in
  input st' = input st /\ position st' = position st
  /\ memento st' = memento st /\ (initial = true -> scroll st' = scroll st)
  /\ contentDisposables st' = contentDisposables st
  /\ disposables st' = disposables st /\ content st' = content st
  /\ content_size st' = content_size st /\ theme st' = theme st
  /\ nextId st' = nextId st.
Proof.
  unfold updateHeight. case_decide; [|repeat split].
  destruct initial; simpl; repeat split; intros; congruence.
Qed.

Lemma mount_snippet_found (anchors : list Element) (i : nat)
    (snippet : SnippetModel) (div : Element) (st : State) :
  querySelector svc anchors (String hash_sign (escape_dots (anchor_id snippet)))
  = Some (Some div) ->
  let editor := mounted_editor (nextId st) div snippet in
  exists st',
    mount_snippet svc anchors i snippet st = (st', Done)
    /\ contentDisposables st'
       = contentDisposables st
         ++ [DEditor editor; DContentChange (S (nextId st)) editor;
             DThemeEditor (S (S (nextId st))) editor]
    /\ nextId st' = S (S (S (nextId st)))
    /\ style_height (el_node div) st' = snippet_height svc (sm_lineCount snippet)
    /\ log st'
       = log st ++ [EvCreateEditor (nextId st) (el_node div)]
         ++ (if decide (style_height (el_node div) st
                        = snippet_height svc (sm_lineCount snippet))
             then []
             else [EvSetHeight (el_node div) (snippet_height svc (sm_lineCount snippet));
                   EvEditorLayout (nextId st)])
         ++ (match i with O => [EvEditorFocus (nextId st)] | S _ => [] end)
    /\ input st' = input st /\ position st' = position st
    /\ memento st' = memento st /\ scroll st' = scroll st
    /\ disposables st' = disposables st /\ content st' = content st
    /\ content_size st' = content_size st /\ theme st' = theme st.
Proof.
  intros Q editor. unfold mount_snippet. rewrite Q. cbv zeta.
  unfold fresh. cbv beta iota.
  eexists. split; [reflexivity|].
  subst editor. unfold mounted_editor.
  set (editor := {| ed_id := nextId st; ed_div := el_node div; ed_model := snippet |}).
  set (st2 := push_content (DEditor editor) _).
  pose proof (updateHeight_frame editor (sm_lineCount snippet) true st2)
    as (Hi & Hp & Hm & Hs & Hc & Hd & Hk & Hz & Ht & Hn).
  specialize (Hs eq_refl).
  pose proof (updateHeight_log editor (sm_lineCount snippet) true st2) as Hl.
  pose proof (updateHeight_height editor (sm_lineCount snippet) true st2) as Hh.
  cbv zeta in *.
  set (st3 := updateHeight svc editor (sm_lineCount snippet) true st2) in *.
  assert (Hsh : style_height (ed_div editor) st2 = style_height (el_node div) st)
    by reflexivity.
  rewrite Hsh in Hl. clear Hsh.
  destruct i as [|i]; simpl; rewrite ?Hi, ?Hp, ?Hm, ?Hs, ?Hc, ?Hd, ?Hk, ?Hz,
    ?Ht, ?Hn, ?Hl; unfold style_height in *; simpl in *;
    rewrite <- ?app_assoc; simpl;
    repeat split; try reflexivity; try exact Hh.
  all: case_decide; simpl; rewrite <- ?app_assoc; reflexivity.
Qed.

Lemma mount_snippet_missing (anchors : list Element) (i : nat)
    (snippet : SnippetModel) (st : State) :
  (forall div,
     querySelector svc anchors (String hash_sign (escape_dots (anchor_id snippet)))
     <> Some (Some div)) ->
  exists e, mount_snippet svc anchors i snippet st = (st, Threw e).
Proof.
  intros Q. unfold mount_snippet.
  destruct (querySelector svc _ _) as [[div|]|].
  - destruct (Q div eq_refl).
  - eexists; reflexivity.
  - eexists; reflexivity.
Qed.


Lemma on_content_change_own (id : nat) (editor : Editor) (lineCount : nat)
    (st : State) :
  on_content_change svc (ed_id editor) lineCount (DContentChange id editor) st
  = updateHeight svc editor lineCount false st.
Proof. unfold on_content_change. now rewrite decide_True. Qed.

Lemma content_change_log (ed lineCount : nat) (ds : list Disposable)
    (st : State) :
  exists resizes,
    log (fold_left (fun s d => on_content_change svc ed lineCount d s) ds st)
    = log st ++ concat resizes
    /\ Forall (resize_calls svc lineCount) resizes.
Proof.
  revert st. induction ds as [|d ds IH]; intros st; simpl.
  - exists []. simpl. now rewrite app_nil_r.
  - destruct (IH (on_content_change svc ed lineCount d st)) as (rs & E & F).
    rewrite E.
    assert (H : exists r, log (on_content_change svc ed lineCount d st)
                          = log st ++ concat r
                          /\ Forall (resize_calls svc lineCount) r).
    { unfold on_content_change.
      destruct d as [e|? ?|id e|? ?|?];
        try (exists []; simpl; now rewrite app_nil_r).
      case_decide; [|exists []; simpl; now rewrite app_nil_r].
      rewrite updateHeight_log. case_decide.
      - exists []. split; [reflexivity | constructor].
      - exists [[EvSetHeight (ed_div e) (snippet_height svc lineCount);
                  EvEditorLayout (ed_id e); EvScanDomNode]].
        split; [reflexivity|].
        repeat constructor. eexists _, _. reflexivity. }
    destruct H as (r & E' & F').
    exists (r ++ rs). rewrite E', concat_app, app_assoc.
    split; [reflexivity | now apply Forall_app].
Qed.


(** C6. The initial height application of a snippet mount never triggers a
    scrollbar rescan: nothing in what a mount appends to the trace is a
    rescan.  Every height change made by the content-change listener is
    followed by the layout of the editor and then by a scrollbar rescan, for
    one listener and for a whole notification. *)
Theorem rescan_only_after_mount :
  (forall anchors i snippet st st' outcome,
     mount_snippet svc anchors i snippet st = (st', outcome) ->
     exists evs, log st' = log st ++ evs /\ EvScanDomNode ∉ evs)
  /\ (forall id editor L' st,
        style_height (ed_div editor) st <> snippet_height svc L' ->
        log (on_content_change svc (ed_id editor) L' (DContentChange id editor) st)
        = log st ++ [EvSetHeight (ed_div editor) (snippet_height svc L');
                     EvEditorLayout (ed_id editor); EvScanDomNode])
  /\ (forall ed L' st,
        exists resizes,
          log (contentChanged svc ed L' st) = log st ++ concat resizes
          /\ Forall (resize_calls svc L') resizes).
Proof.
  split; [|split].
  - intros anchors i snippet st st' outcome M.
    destruct (querySelector svc anchors
                (String hash_sign (escape_dots (anchor_id snippet))))
      as [[div|]|] eqn:Q.
    + destruct (mount_snippet_found anchors i snippet div st Q)
        as (st'' & M' & _ & _ & _ & Hl & _).
      rewrite M in M'. inversion M'; subst st'' outcome.
      eexists. split; [exact Hl|].
      rewrite !elem_of_app, !elem_of_cons, elem_of_nil.
      case_decide; destruct i;
        rewrite ?elem_of_cons, ?elem_of_nil; intuition discriminate.
    + destruct (mount_snippet_missing anchors i snippet st) as [e E];
        [rewrite Q; congruence|].
      rewrite M in E. inversion E; subst. exists [].
      rewrite app_nil_r, elem_of_nil. tauto.
    + destruct (mount_snippet_missing anchors i snippet st) as [e E];
        [rewrite Q; congruence|].
      rewrite M in E. inversion E; subst. exists [].
      rewrite app_nil_r, elem_of_nil. tauto.
  - intros id editor L' st N.
    rewrite on_content_change_own, updateHeight_changed by exact N.
    simpl. now rewrite <- app_assoc.
  - intros ed L' st. apply content_change_log.
Qed.

End SnippetHeight.

Lemma rescan_only_after_mount_witness :
  let editor := {| ed_id := 5; ed_div := 2; ed_model := demo_snippet "0.js" 2 |} in
  let st := createEditor None in
  style_height 2 st <> snippet_height demo 9
  /\ log (on_content_change demo 5 9 (DContentChange 6 editor) st)
     = log st ++ [EvSetHeight 2 "170px"; EvEditorLayout 5; EvScanDomNode].
Proof.
  intros editor st.
  assert (N : style_height (ed_div editor) st <> snippet_height demo 9)
    by (vm_compute; discriminate).
  split; [exact N|].
  exact (proj1 (proj2 (rescan_only_after_mount demo)) 6 editor 9 st N).
Defined.

(** ** LayoutCoordinator *)

Section Layout.

Variable svc : Services.

Lemma classList_add_in (c : string) (l : list string) : c ∈ classList_add c l.
Proof.
  unfold classList_add. case_decide; [assumption|].
  apply elem_of_app. right. apply list_elem_of_here.
Qed.

Lemma classList_remove_out (c : string) (l : list string) :
  c ∉ classList_remove c l.
Proof.
  unfold classList_remove. intros H. apply list_elem_of_filter in H.
  destruct H as [H _]. now apply H.
Qed.

Lemma layout_compact (width height : nat) (st : State) :
  compact (layout svc width height st)
  = match content st with
    | [] => false
    | _ :: _ => (height <=? 690)%nat
    end.
Proof.
  unfold compact, layout. simpl.
  destruct (content st) as [|innerContent others] eqn:E; simpl;
    [now rewrite E|].
  destruct (Nat.leb_spec height 690).
  - apply bool_decide_eq_true. apply classList_add_in.
  - apply bool_decide_eq_false. apply classList_remove_out.
Qed.

Lemma layout_log (width height : nat) (st : State) :
  log (layout svc width height st)
  = log st
    ++ map (fun e => EvEditorLayout (ed_id e)) (editors_of (contentDisposables st))
    ++ [EvScanDomNode].
Proof.
  unfold layout. simpl.
  destruct (content st); simpl; now rewrite <- app_assoc.
Qed.

Lemma layout_size (width height : nat) (st : State) :
  content_size (layout svc width height st) = Some (px height, px width).
Proof. unfold layout. simpl. destruct (content st); reflexivity. Qed.

(** C7, as the code has it.  For every width [w], [layout(w, 690)] puts the
    content into the compact presentation state when the content has an
    element child, and [layout(w, 691)] leaves it out of that state; more
    generally the state is compact after a layout exactly when the height is at
    most 690 and there is an element child to mark.  Each layout call applies
    the pixel height and width to the content root, forwards the layout to
    every live snippet editor, and finishes with one scrollbar rescan, the
    only one of the call. *)
Theorem layout_compact_threshold (w : nat) (st : State) :
  (content st <> [] -> compact (layout svc w 690 st) = true)
  /\ compact (layout svc w 691 st) = false
  /\ (forall h, compact (layout svc w h st) = true
                <-> h <= 690 /\ content st <> [])
  /\ (forall h,
        content_size (layout svc w h st) = Some (px h, px w)
        /\ log (layout svc w h st)
           = log st
             ++ map (fun e => EvEditorLayout (ed_id e))
                    (editors_of (contentDisposables st))
             ++ [EvScanDomNode]).
Proof.
  repeat split.
  - intros N. rewrite layout_compact. destruct (content st); [congruence|reflexivity].
  - rewrite layout_compact. destruct (content st); reflexivity.
  - rewrite layout_compact in H. destruct (content st); [discriminate|].
    now apply Nat.leb_le.
  - rewrite layout_compact in H. destruct (content st); [discriminate|congruence].
  - intros [L N]. rewrite layout_compact. destruct (content st); [congruence|].
    now apply Nat.leb_le.
  - apply layout_size.
  - apply layout_log.
Qed.

End Layout.

Lemma layout_compact_threshold_witness :
  let root := {| root_node := 1; root_classes := ["walkThroughContent"];
                 root_anchors := []; root_shortcuts := [] |} in
  let st := set_content [root] (createEditor None) in
  content st <> [] /\ compact (layout demo 800 690 st) = true.
Proof.
  intros root st.
  assert (N : content st <> []) by discriminate.
  split; [exact N|].
  exact (proj1 (layout_compact_threshold demo 800 st) N).
Defined.

(** C7 as the specification words it does not hold while nothing is mounted:
    [layout(800, 690)] on the pane that [createEditor] has just built marks
    nothing as compact. *)
Lemma layout_compact_empty_content :
  compact (layout demo 800 690 (createEditor None)) = false.
Proof. reflexivity. Qed.

(** ** Disposal *)

Lemma disposed_app (a b : list Event) : disposed (a ++ b) = disposed a ++ disposed b.
Proof. apply omap_app. Qed.

Lemma disposed_dispose_events (ds : list Disposable) :
  disposed (map (fun d => EvDispose (disposable_id d)) ds) = map disposable_id ds.
Proof. induction ds as [|d ds IH]; simpl; [reflexivity | now rewrite <- IH]. Qed.

Lemma grows_refl (st : State) : grows st st.
Proof.
  split.
  - exists []. now rewrite app_nil_r.
  - exists []. rewrite app_nil_r. repeat split; constructor.
  - reflexivity.
  - reflexivity.
Qed.

Lemma grows_trans (a b c : State) : grows a b -> grows b c -> grows a c.
Proof.
  intros [(e1 & L1 & D1) (n1 & C1 & U1 & F1) S1 N1]
         [(e2 & L2 & D2) (n2 & C2 & U2 & F2) S2 N2].
  split.
  - exists (e1 ++ e2). rewrite L2, L1, <- app_assoc, disposed_app, D1, D2.
    split; reflexivity.
  - exists (n1 ++ n2). rewrite C2, C1, <- app_assoc. split; [reflexivity|].
    split.
    + rewrite map_app. apply NoDup_app. split; [exact U1|]. split; [|exact U2].
      intros x H1 H2.
      apply list_elem_of_fmap in H1 as (d1 & -> & H1).
      apply list_elem_of_fmap in H2 as (d2 & E & H2).
      rewrite Forall_forall in F1, F2.
      specialize (F1 _ H1). specialize (F2 _ H2). lia.
    + apply Forall_app. split.
      * eapply Forall_impl; [exact F1|]. simpl. intros; lia.
      * eapply Forall_impl; [exact F2|]. simpl. intros; lia.
  - congruence.
  - lia.
Qed.

(** A step that leaves the disposables and the counter alone and appends
    calls that dispose nothing. *)
Lemma grows_quiet (st st' : State) (evs : list Event) :
  log st' = log st ++ evs -> disposed evs = [] ->
  contentDisposables st' = contentDisposables st ->
  disposables st' = disposables st ->
  nextId st' = nextId st ->
  grows st st'.
Proof.
  intros L D C S N. split.
  - exists evs. split; assumption.
  - exists []. rewrite app_nil_r. repeat split; [assumption|constructor|constructor].
  - assumption.
  - lia.
Qed.

Lemma consistent_grows (st st' : State) :
  consistent st -> grows st st' -> consistent st'.
Proof.
  intros [U B] [(evs & L & D) (new & C & Un & Fn) S N].
  unfold consistent, live in *.
  rewrite L, disposed_app, D, app_nil_r, C, S.
  assert (P : disposed (log st)
                ++ map disposable_id ((contentDisposables st ++ new) ++ disposables st)
              ≡ₚ (disposed (log st)
                    ++ map disposable_id (contentDisposables st ++ disposables st))
                 ++ map disposable_id new).
  { rewrite !map_app. solve_Permutation. }
  split.
  - rewrite P. apply NoDup_app. split; [exact U|]. split; [|exact Un].
    intros x H1 H2. rewrite Forall_forall in B. specialize (B _ H1).
    apply list_elem_of_fmap in H2 as (d & -> & H2).
    rewrite Forall_forall in Fn. specialize (Fn _ H2). lia.
  - rewrite P. apply Forall_app. split.
    + eapply Forall_impl; [exact B|]. simpl. intros; lia.
    + apply Forall_fmap. eapply Forall_impl; [exact Fn|]. simpl. intros; lia.
Qed.

Lemma consistent_createEditor m : consistent (createEditor m).
Proof.
  unfold consistent, live. simpl. split.
  - apply NoDup_singleton.
  - repeat constructor.
Qed.

Lemma grows_intro (st st' : State) (evs : list Event) (new : list Disposable) :
  log st' = log st ++ evs -> disposed evs = [] ->
  contentDisposables st' = contentDisposables st ++ new ->
  NoDup (map disposable_id new) ->
  Forall (fun d => nextId st <= disposable_id d < nextId st') new ->
  disposables st' = disposables st ->
  nextId st <= nextId st' ->
  grows st st'.
Proof.
  intros L D C U F S N. split.
  - exists evs. split; assumption.
  - exists new. repeat split; assumption.
  - assumption.
  - assumption.
Qed.

Lemma disposed_editor_layouts (es : list Editor) :
  disposed (map (fun e => EvEditorLayout (ed_id e)) es) = [].
Proof. induction es as [|e es IH]; simpl; [reflexivity | exact IH]. Qed.

Lemma disposed_theme_change (t : string) (ds : list Disposable) :
  disposed (concat (map (on_theme_change t) ds)) = [].
Proof.
  induction ds as [|d ds IH]; simpl; [reflexivity|].
  rewrite disposed_app, IH, app_nil_r. destruct d; reflexivity.
Qed.

Lemma NoDup_three (n : nat) : NoDup [n; S n; S (S n)].
Proof.
  repeat constructor; rewrite ?elem_of_cons, ?elem_of_nil; lia.
Qed.

Section Disposal.

Variable svc : Services.

Lemma save_grows (d : URI) (st : State) :
  grows st (saveTextEditorViewState svc d st).
Proof.
  eapply grows_quiet with (evs := [EvSaveViewState (uri_toString svc d)]);
    reflexivity.
Qed.

Lemma update_scroll_grows (top left : option Z) (st : State) :
  grows st (scrollbar_updateState top left st).
Proof.
  eapply grows_quiet with (evs := [EvUpdateScroll top left]); reflexivity.
Qed.

Lemma load_grows (d : URI) (st : State) :
  grows st (loadTextEditorViewState svc d st).
Proof.
  unfold loadTextEditorViewState.
  destruct (storedViewState svc d st); [apply update_scroll_grows | apply grows_refl].
Qed.

Lemma emit_grows (evs : list Event) (st : State) :
  disposed evs = [] -> grows st (emit evs st).
Proof. intros D. eapply grows_quiet with (evs := evs); auto. Qed.

Lemma scan_grows (st : State) : grows st (scanDomNode svc st).
Proof. eapply grows_quiet with (evs := [EvScanDomNode]); reflexivity. Qed.

Lemma updateHeight_grows (editor : Editor) (lineCount : nat) (initial : bool)
    (st : State) :
  grows st (updateHeight svc editor lineCount initial st).
Proof.
  unfold updateHeight. case_decide; [|apply grows_refl]. cbv zeta.
  destruct initial.
  - eapply grows_quiet; reflexivity.
  - eapply grows_trans; [|apply scan_grows]. eapply grows_quiet; reflexivity.
Qed.

Lemma contentChanged_grows (ed lineCount : nat) (st : State) :
  grows st (contentChanged svc ed lineCount st).
Proof.
  unfold contentChanged. generalize (contentDisposables st) as ds.
  intros ds. revert st. induction ds as [|d ds IH]; intros st; simpl.
  - apply grows_refl.
  - eapply grows_trans; [|apply IH].
    unfold on_content_change.
    destruct d; try apply grows_refl.
    case_decide; [apply updateHeight_grows | apply grows_refl].
Qed.

Lemma themeChanged_grows (t : string) (st : State) :
  grows st (themeChanged t st).
Proof.
  eapply grows_quiet; try reflexivity. apply disposed_theme_change.
Qed.

Lemma layout_grows (width height : nat) (st : State) :
  grows st (layout svc width height st).
Proof.
  eapply grows_quiet.
  - apply layout_log.
  - now rewrite disposed_app, disposed_editor_layouts.
  - unfold layout. simpl. destruct (content st); reflexivity.
  - unfold layout. simpl. destruct (content st); reflexivity.
  - unfold layout. simpl. destruct (content st); reflexivity.
Qed.

Lemma open_link_grows (href : string) (st : State) :
  grows st (fst (open_link svc href st)).
Proof.
  unfold open_link. destruct (addFrom svc (uri_parse svc href) st); simpl.
  - now apply emit_grows.
  - apply grows_refl.
Qed.

Lemma click_grows (ev : ClickEvent) (st : State) :
  grows st (fst (click svc ev st)).
Proof.
  unfold click. induction (ev_chain ev) as [|node parents IH]; simpl.
  - apply grows_refl.
  - destruct node as [href hash|data_href| |].
    + destruct (is_empty_string href); [exact IH|].
      destruct (contains (ev_baseHref ev) href && negb (is_empty_string hash)).
      * destruct (ev_querySelector ev hash); simpl.
        -- apply grows_refl.
        -- now apply emit_grows.
        -- eapply grows_trans; [apply update_scroll_grows | now apply emit_grows].
      * pose proof (open_link_grows href st) as G.
        destruct (open_link svc href st) as [st' [|e]]; simpl in *.
        -- eapply grows_trans; [exact G | now apply emit_grows].
        -- exact G.
    + destruct data_href as [href|]; [|apply grows_refl].
      destruct (is_empty_string href); [apply grows_refl | apply open_link_grows].
    + apply grows_refl.
    + exact IH.
Qed.

Lemma mount_snippet_grows (anchors : list Element) (i : nat)
    (snippet : SnippetModel) (st : State) :
  grows st (fst (mount_snippet svc anchors i snippet st)).
Proof.
  destruct (querySelector svc anchors
              (String hash_sign (escape_dots (anchor_id snippet))))
    as [[div|]|] eqn:Q.
  - destruct (mount_snippet_found svc anchors i snippet div st Q)
      as (st' & M & Hc & Hn & _ & Hl & _ & _ & _ & _ & Hd & _).
    rewrite M. simpl.
    eapply grows_intro; [exact Hl| |exact Hc| | |exact Hd|lia].
    + rewrite !disposed_app. simpl. case_decide; destruct i; reflexivity.
    + apply NoDup_three.
    + rewrite Hn. repeat constructor; simpl; lia.
  - destruct (mount_snippet_missing svc anchors i snippet st) as [e E];
      [rewrite Q; congruence|].
    rewrite E. apply grows_refl.
  - destruct (mount_snippet_missing svc anchors i snippet st) as [e E];
      [rewrite Q; congruence|].
    rewrite E. apply grows_refl.
Qed.

Lemma mount_snippets_grows (anchors : list Element) (snips : list SnippetModel)
    (i : nat) (st : State) :
  grows st (fst (mount_snippets svc anchors i snips st)).
Proof.
  revert i st. induction snips as [|snippet rest IH]; intros i st;
    cbn [mount_snippets fst].
  - apply grows_refl.
  - pose proof (mount_snippet_grows anchors i snippet st) as G.
    destruct (mount_snippet svc anchors i snippet st) as [st' [|e]];
      cbn [fst] in *.
    + eapply grows_trans; [exact G | apply IH].
    + exact G.
Qed.

Lemma render_markup_grows (inp : WalkThroughInput) (text : string) (st : State) :
  grows st (render_markup svc inp text st).
Proof.
  unfold render_markup.
  eapply grows_trans; [|apply load_grows].
  eapply grows_trans; [|apply scan_grows].
  eapply grows_trans;
    [|destruct (in_onReady inp); [now apply emit_grows | apply grows_refl]].
  eapply grows_intro with (evs := [EvSetMarkup text]) (new := []); simpl;
    try reflexivity; try constructor; try lia.
  now rewrite app_nil_r.
Qed.

Lemma render_markdown_grows (inp : WalkThroughInput) (model : WalkThroughModel)
    (text : string) (st : State) :
  grows st (fst (render_markdown svc inp model text st)).
Proof.
  unfold render_markdown. cbv zeta.
  destruct (render_code_blocks _ _ _) as [htmls|]; [|apply grows_refl].
  unfold fresh. cbv beta iota zeta.
  set (blocks := marked_blocks svc (expandMacros svc text)).
  set (st6 := emit [EvAppendRoot _] _).
  assert (G6 : grows st st6).
  { eapply grows_intro with
      (evs := [EvStyle (nextId st) (theme st); EvAppendRoot (nextId st)])
      (new := [DThemeStyle (S (nextId st) + List.length htmls
                            + prose_count svc blocks) (nextId st)]);
      subst st6; simpl; try reflexivity.
    - now rewrite <- app_assoc.
    - apply NoDup_singleton.
    - repeat constructor; simpl; lia.
    - lia. }
  match goal with
  | |- context [mount_snippets svc ?a 0 ?s ?t] =>
      pose proof (mount_snippets_grows a s 0 t) as G;
      destruct (mount_snippets svc a 0 s t) as [st7 [|e]]
  end; cbn [fst] in *.
  - eapply grows_trans; [exact G6|]. eapply grows_trans; [exact G|].
    eapply grows_trans; [|apply load_grows].
    eapply grows_trans; [|apply scan_grows].
    destruct (in_onReady inp); [now apply emit_grows | apply grows_refl].
  - eapply grows_trans; [exact G6 | exact G].
Qed.

Lemma setInput_resolved_grows (inp : WalkThroughInput) (model : WalkThroughModel)
    (st : State) :
  grows st (fst (setInput_resolved svc inp model st)).
Proof.
  unfold setInput_resolved.
  destruct (endsWith _ _); [apply render_markup_grows | apply render_markdown_grows].
Qed.

End Disposal.

Section Lifecycle.

Variable svc : Services.

Lemma setInput_log (inp : WalkThroughInput) (st : State) :
  log (setInput svc inp st)
  = log st
    ++ match input st with
       | Some current => [EvSaveViewState (uri_toString svc (in_resource current))]
       | None => []
       end
    ++ map (fun d => EvDispose (disposable_id d)) (contentDisposables st)
    ++ [EvClearContent].
Proof.
  unfold setInput. destruct (input st); simpl; now rewrite <- !app_assoc.
Qed.

Lemma setInput_disposed (inp : WalkThroughInput) (st : State) :
  disposed (log (setInput svc inp st))
  = disposed (log st) ++ map disposable_id (contentDisposables st).
Proof.
  rewrite setInput_log, !disposed_app, disposed_dispose_events.
  destruct (input st); simpl; now rewrite app_nil_r.
Qed.

Lemma setInput_fields (inp : WalkThroughInput) (st : State) :
  contentDisposables (setInput svc inp st) = []
  /\ content (setInput svc inp st) = []
  /\ disposables (setInput svc inp st) = disposables st
  /\ nextId (setInput svc inp st) = nextId st
  /\ input (setInput svc inp st) = Some inp.
Proof. unfold setInput. destruct (input st); simpl; repeat split. Qed.

Lemma setInput_consistent (inp : WalkThroughInput) (st : State) :
  consistent st -> consistent (setInput svc inp st).
Proof.
  destruct (setInput_fields inp st) as (C & _ & D & N & _).
  unfold consistent, live. rewrite setInput_disposed, C, D, N.
  rewrite map_app, <- app_assoc. simpl. tauto.
Qed.

Lemma dispose_log (st : State) :
  log (dispose st)
  = log st
    ++ map (fun d => EvDispose (disposable_id d))
           (contentDisposables st ++ disposables st).
Proof. unfold dispose. simpl. now rewrite map_app, <- app_assoc. Qed.

Lemma dispose_consistent (st : State) : consistent st -> consistent (dispose st).
Proof.
  unfold consistent, live. rewrite dispose_log, disposed_app, disposed_dispose_events.
  simpl. rewrite app_nil_r. tauto.
Qed.

(** Apart from [setInput] and [dispose], no operation disposes anything. *)
Lemma step_grows (st : State) (op : Op) :
  releases op = false -> grows st (step svc st op).
Proof.
  destruct op; simpl; try discriminate; intros _.
  - apply setInput_resolved_grows.
  - apply layout_grows.
  - now apply emit_grows.
  - unfold clearInput. destruct (input st).
    + eapply grows_trans; [apply save_grows|].
      eapply grows_quiet with (evs := []); try reflexivity.
      now rewrite app_nil_r.
    + eapply grows_quiet with (evs := []); try reflexivity.
      now rewrite app_nil_r.
  - unfold shutdown. destruct (input st); [apply save_grows | apply grows_refl].
  - eapply grows_quiet with (evs := []); try reflexivity. now rewrite app_nil_r.
  - eapply grows_quiet with (evs := []); try reflexivity. now rewrite app_nil_r.
  - apply contentChanged_grows.
  - apply themeChanged_grows.
  - apply click_grows.
Qed.


Lemma step_consistent (st : State) (op : Op) :
  consistent st -> consistent (step svc st op).
Proof.
  intros C. destruct (releases op) eqn:R.
  - destruct op; try discriminate R; simpl.
    + now apply setInput_consistent.
    + now apply dispose_consistent.
  - eapply consistent_grows; [exact C | now apply step_grows].
Qed.

Lemma run_consistent (ops : list Op) (st : State) :
  consistent st -> consistent (run svc ops st).
Proof.
  revert st. induction ops as [|op ops IH]; intros st C; simpl; [exact C|].
  apply IH. now apply step_consistent.
Qed.

(** The trace only grows. *)
Lemma step_log (st : State) (op : Op) :
  exists evs, log (step svc st op) = log st ++ evs.
Proof.
  destruct (releases op) eqn:R.
  - destruct op; try discriminate R; unfold step.
    + eexists. apply setInput_log.
    + eexists. apply dispose_log.
  - destruct (step_grows st op R) as [(evs & L & _) _ _ _]. now exists evs.
Qed.

Lemma run_log (ops : list Op) (st : State) :
  exists evs, log (run svc ops st) = log st ++ evs.
Proof.
  revert st. induction ops as [|op ops IH]; intros st; simpl.
  - exists []. now rewrite app_nil_r.
  - destruct (IH (step svc st op)) as [e2 E2].
    destruct (step_log st op) as [e1 E1].
    exists (e1 ++ e2). now rewrite E2, E1, app_assoc.
Qed.

Lemma stored_ext (d : URI) (a b : State) :
  memento a = memento b -> position a = position b ->
  storedViewState svc d a = storedViewState svc d b.
Proof. intros M P. unfold storedViewState. now rewrite M, P. Qed.

Lemma disposed_run_prefix (ops : list Op) (st : State) (id : nat) :
  id ∈ disposed (log st) -> id ∈ disposed (log (run svc ops st)).
Proof.
  intros H. destruct (run_log ops st) as [evs E].
  rewrite E, disposed_app. apply elem_of_app. now left.
Qed.

Lemma disposed_once (st : State) (id : nat) :
  consistent st -> id ∈ disposed (log st) ->
  count_occ Nat.eq_dec (disposed (log st)) id = 1.
Proof.
  intros [U _] H.
  apply NoDup_app in U as (U & _ & _).
  apply list_elem_of_In in H.
  apply (count_occ_In Nat.eq_dec) in H.
  apply NoDup_ListNoDup in U.
  pose proof (proj1 (NoDup_count_occ Nat.eq_dec _) U id).
  lia.
Qed.

(** C4, as the code has it.  For every document replacement, a [setInput]
    call made after any history [before] while a walkthrough document
    [current] is the input, the first thing the call does is to save the view
    state of [current]; then it disposes every content disposable and clears
    the content, and nothing is mounted by the call itself.  The store then
    holds what [saveTextEditorViewState] writes for the outgoing document,
    which for a numeric pane position is the scroll position of the outgoing
    document.  Every snippet editor and subscription that the pane holds at
    the call, those of the outgoing document that are mounted by then, is
    disposed exactly once: once in this call, and never again whatever
    happens [after]. *)
Theorem replacement_saves_then_disposes
    (m : option (gmap string (gmap nat IWalkThroughEditorViewState)))
    (before after : list Op) (current next : WalkThroughInput) :
  let st := run svc before (createEditor m) in
  input st = Some current ->
  let st' := setInput svc next st in
  log st'
  = log st
    ++ [EvSaveViewState (uri_toString svc (in_resource current))]
    ++ map (fun d => EvDispose (disposable_id d)) (contentDisposables st)
    ++ [EvClearContent]
  /\ memento st' = memento (saveTextEditorViewState svc (in_resource current) st)
  /\ (forall slot,
        position st = Some slot ->
        storedViewState svc (in_resource current) st'
        = Some {| viewState := scroll st |})
  /\ contentDisposables st' = []
  /\ content st' = []
  /\ (forall d,
        d ∈ contentDisposables st ->
        count_occ Nat.eq_dec (disposed (log (run svc after st'))) (disposable_id d)
        = 1).
Proof.
  intros st I st'.
  assert (M : memento st'
              = memento (saveTextEditorViewState svc (in_resource current) st)).
  { subst st'. unfold setInput. rewrite I. reflexivity. }
  assert (P : position st' = position st).
  { subst st'. unfold setInput. rewrite I. reflexivity. }
  destruct (setInput_fields next st) as (C & K & _).
  split; [|split; [|split; [|split; [|split]]]].
  - subst st'. rewrite setInput_log, I. reflexivity.
  - exact M.
  - intros slot S.
    rewrite (stored_ext _ st' (saveTextEditorViewState svc (in_resource current) st))
      by (assumption || (rewrite P; reflexivity)).
    now apply stored_after_save with (slot := slot).
  - exact C.
  - exact K.
  - intros d D. apply disposed_once.
    + apply run_consistent, setInput_consistent, run_consistent,
        consistent_createEditor.
    + apply disposed_run_prefix. subst st'. rewrite setInput_disposed.
      apply elem_of_app. right. now apply list_elem_of_fmap_2.
Qed.






End Lifecycle.

Lemma replacement_saves_then_disposes_witness :
  let before := [OpSetPosition (Some 1); OpSetInput doc_a;
                 OpResolved doc_a model_a;
                 OpScrolled {| scrollTop := 120; scrollLeft := 0 |}] in
  let after := [OpResolved doc_b model_b; OpSetInput doc_a; OpDispose] in
  let st := run demo before (createEditor None) in
  let st' := setInput demo doc_b st in
  input st = Some doc_a
  /\ storedViewState demo (in_resource doc_a) st'
     = Some {| viewState := {| scrollTop := 120; scrollLeft := 0 |} |}
  /\ map disposable_id (contentDisposables st) = [3; 4; 5; 6]
  /\ forall d,
       d ∈ contentDisposables st ->
       count_occ Nat.eq_dec (disposed (log (run demo after st'))) (disposable_id d)
       = 1.
Proof.
  intros before after st st'.
  assert (I : input st = Some doc_a) by (vm_compute; reflexivity).
  destruct (replacement_saves_then_disposes demo None before after doc_a doc_b I)
    as (_ & _ & S & _ & _ & O).
  split; [exact I|].
  split; [exact (S 1 ltac:(vm_compute; reflexivity))|].
  split; [vm_compute; reflexivity | exact O].
Defined.

(** C4 as the specification words it does not hold when the outgoing
    document resolves late: [setInput(a)], then the replacement
    [setInput(b)] while [a] is the input and has not resolved, so that the
    replacement finds nothing to dispose.  The resolution of [a] then mounts
    the editor of the snippet of [a] with its listeners, and the replacement
    has disposed none of them: they are held, and nothing at all has been
    disposed. *)
Lemma late_editors_escape_replacement :
  let st := setInput demo doc_a (createEditor None) in
  let st' := setInput demo doc_b st in
  let fin := run demo [OpResolved doc_a model_a] st' in
  input st = Some doc_a
  /\ map ed_model (editors_of (contentDisposables fin)) = snippets model_a
  /\ map disposable_id (contentDisposables fin) = [3; 4; 5; 6]
  /\ disposed (log fin) = [].
Proof. vm_compute. repeat split. Qed.


(** ** DocumentRenderer *)






(** *** Characters of anchors *)






(** *** The selector of an anchor *)





(** Why the dots are escaped: unescaped, the dot of [snippet-0.js] starts a
    class selector, and the anchor is not found. *)
Example dot_needs_escaping :
  let anchor := {| el_node := 2; el_id := "snippet-0.js";
                   el_classes := ["walkThroughEditorContainer"] |} in
  querySelector demo [anchor] "#snippet-0.js" = Some None
  /\ querySelector demo [anchor] (String hash_sign (escape_dots "snippet-0.js"))
     = Some (Some anchor).
Proof. split; reflexivity. Qed.

(** *** Code blocks and snippet models, in step *)









Section Renderer.

Variable svc : Services.

Lemma load_frame (d : URI) (st : State) :
  contentDisposables (loadTextEditorViewState svc d st) = contentDisposables st
  /\ content (loadTextEditorViewState svc d st) = content st.
Proof.
  unfold loadTextEditorViewState.
  destruct (storedViewState svc d st); split; reflexivity.
Qed.



Lemma mount_snippets_content (anchors : list Element)
    (snips : list SnippetModel) (i : nat) (st : State) :
  content (fst (mount_snippets svc anchors i snips st)) = content st.
Proof.
  revert i st. induction snips as [|m snips IH]; intros i st;
    cbn [mount_snippets fst].
  - reflexivity.
  - destruct (querySelector svc anchors
                (String hash_sign (escape_dots (anchor_id m))))
      as [[div|]|] eqn:Q.
    + destruct (mount_snippet_found svc anchors i m div st Q)
        as (st1 & M & _ & _ & _ & _ & _ & _ & _ & _ & _ & Hk & _).
      rewrite M. cbv beta iota. rewrite IH. exact Hk.
    + destruct (mount_snippet_missing svc anchors i m st) as [e E];
        [rewrite Q; congruence|].
      now rewrite E.
    + destruct (mount_snippet_missing svc anchors i m st) as [e E];
        [rewrite Q; congruence|].
      now rewrite E.
Qed.

(** A Markdown resolution that completes appends the root of its own plan
    behind what the content holds. *)
Lemma render_markdown_content (inp : WalkThroughInput)
    (model : WalkThroughModel) (st st' : State) :
  render_markdown svc inp model (join_lines (main_lines model)) st = (st', Done) ->
  exists htmls,
    plan svc model = Some htmls
    /\ content st' = content st ++ [plan_root (nextId st) htmls]
    /\ nextId st < nextId st'.
Proof.
  unfold render_markdown, plan. cbv zeta.
  destruct (render_code_blocks _ _ _) as [htmls|]; [|discriminate].
  unfold fresh. cbv beta iota zeta.
  set (st6 := emit [EvAppendRoot _] _).
  match goal with
  | |- context [mount_snippets svc ?a 0 ?s ?t] =>
      pose proof (mount_snippets_content a s 0 t) as K;
      pose proof (mount_snippets_grows svc a s 0 t) as G;
      destruct (mount_snippets svc a 0 s t) as [st7 [|e]]
  end; [|discriminate].
  cbn [fst] in K, G.
  intros E. inversion E; subst st'. clear E.
  exists htmls. split; [reflexivity|]. simpl in K.
  destruct (load_frame (in_resource inp)
              (scanDomNode svc (if in_onReady inp
                            then emit [EvOnReady (Some (nextId st))] st7
                            else st7))) as [_ L].
  split.
  - rewrite L. destruct (in_onReady inp); simpl; rewrite K; reflexivity.
  - destruct G as [_ _ _ N]. subst st6. simpl in N.
    unfold loadTextEditorViewState.
    destruct (storedViewState _ _ _); destruct (in_onReady inp); simpl; lia.
Qed.






Lemma render_code_blocks_length (snips : list SnippetModel) (i : nat)
    (blocks : list Block) (htmls : list string) :
  render_code_blocks snips i blocks = Some htmls ->
  List.length htmls = count_code blocks.
Proof.
  revert i htmls. induction blocks as [|[html|text lang] blocks IH];
    intros i htmls R; cbn [render_code_blocks count_code] in *.
  - now inversion R.
  - now apply (IH i).
  - destruct (snips !! i); [|discriminate R].
    destruct (render_code_blocks snips (S i) blocks) as [hs|] eqn:E;
      [|discriminate R].
    inversion R; subst. simpl. f_equal. now apply (IH (S i)).
Qed.







(** C2, as the code has it.  [setInput] keeps no record of which call is the
    most recent one: a resolution mounts its plan whenever it completes.  For
    two Markdown documents whose resolutions complete: when the resolution of
    the earlier call completes before the later call is made, the content
    holds the plan of the later call alone once that one has resolved, the
    later call having cleared the content; when the calls overlap, the stale
    resolution mounts its root behind the root of the later call. *)
Theorem resolution_mounts_without_check (st : State) (A B : WalkThroughInput)
    (mA mB : WalkThroughModel) :
  endsWith (path (in_resource A)) ".html" = false ->
  endsWith (path (in_resource B)) ".html" = false ->
  (forall s2 s4,
     setInput_resolved svc A mA (setInput svc A st) = (s2, Done) ->
     setInput_resolved svc B mB (setInput svc B s2) = (s4, Done) ->
     exists pB,
       plan svc mB = Some pB /\ content s4 = [plan_root (nextId s2) pB])
  /\ (forall s3 s4,
        setInput_resolved svc B mB (setInput svc B (setInput svc A st)) = (s3, Done) ->
        setInput_resolved svc A mA s3 = (s4, Done) ->
        exists pA pB,
          plan svc mA = Some pA /\ plan svc mB = Some pB
          /\ content s4 = [plan_root (nextId st) pB; plan_root (nextId s3) pA]).
Proof.
  intros HA HB. unfold setInput_resolved. rewrite HA, HB. split.
  - intros s2 s4 _ R.
    destruct (render_markdown_content _ _ _ _ R) as (pB & P & K & _).
    destruct (setInput_fields svc B s2) as (_ & K0 & _ & N0 & _).
    exists pB. split; [exact P|]. now rewrite K, K0, N0.
  - intros s3 s4 RB RA.
    destruct (render_markdown_content _ _ _ _ RB) as (pB & PB & KB & _).
    destruct (render_markdown_content _ _ _ _ RA) as (pA & PA & KA & _).
    destruct (setInput_fields svc B (setInput svc A st)) as (_ & K0 & _ & N0 & _).
    destruct (setInput_fields svc A st) as (_ & _ & _ & N1 & _).
    exists pA, pB. split; [exact PA|]. split; [exact PB|].
    now rewrite KA, KB, K0, N0, N1.
Qed.

End Renderer.





(** The lookup searches every element below the root.  When the prose has
    an element with the id of an anchor before the placeholder, here the
    element of [#] with the id [snippet-h], the editor of the snippet is
    created on that element, node 3, and the placeholder, node 2, gets
    none. *)
Example prose_element_takes_the_editor :
  let model := demo_model "#~" [demo_snippet "h" 2] in
  let st' := fst (setInput_resolved demo doc_a model (createEditor None)) in
  map (fun r => map el_node (root_anchors r)) (content st') = [[2]]
  /\ map binding (editors_of (contentDisposables st'))
     = [(3, demo_snippet "h" 2)].
Proof. vm_compute. split; reflexivity. Qed.

Lemma resolution_mounts_without_check_witness :
  let st := createEditor None in
  let s3 := fst (setInput_resolved demo doc_b model_b
                   (setInput demo doc_b (setInput demo doc_a st))) in
  let s4 := fst (setInput_resolved demo doc_a model_a s3) in
  setInput_resolved demo doc_b model_b
    (setInput demo doc_b (setInput demo doc_a st)) = (s3, Done)
  /\ setInput_resolved demo doc_a model_a s3 = (s4, Done)
  /\ exists pA pB,
       plan demo model_a = Some pA /\ plan demo model_b = Some pB
       /\ content s4 = [plan_root (nextId st) pB; plan_root (nextId s3) pA].
Proof.
  intros st s3 s4.
  assert (R3 : setInput_resolved demo doc_b model_b
                 (setInput demo doc_b (setInput demo doc_a st)) = (s3, Done))
    by (vm_compute; reflexivity).
  assert (R4 : setInput_resolved demo doc_a model_a s3 = (s4, Done))
    by (vm_compute; reflexivity).
  split; [exact R3|]. split; [exact R4|].
  exact (proj2 (resolution_mounts_without_check demo st doc_a doc_b model_a
                  model_b eq_refl eq_refl) s3 s4 R3 R4).
Defined.

(** C2 as the specification words it does not hold when two calls overlap:
    [setInput(a)], [setInput(b)], then the resolution of [b] and at last the
    stale resolution of [a].  The content ends up with the plan of [b] and,
    behind it, the plan of [a]. *)
Lemma stale_resolution_mounts :
  map (fun r => map el_id (root_anchors r))
      (content (run demo [OpSetInput doc_a; OpSetInput doc_b;
                          OpResolved doc_b model_b; OpResolved doc_a model_a]
                  (createEditor None)))
  = [["snippet-0.b"]; ["snippet-0.a"]].
Proof. vm_compute. reflexivity. Qed.

(** ** The click handler *)



Section Click.

Variable svc : Services.

Lemma click_walk_passed (ev : ClickEvent) (pre rest : list DomNode) (st : State) :
  forallb passed pre = true ->
  click_walk svc ev (pre ++ rest) st = click_walk svc ev rest st.
Proof.
  induction pre as [|n pre IH]; intros H; simpl in *; [reflexivity|].
  apply andb_true_iff in H as [H1 H2].
  destruct n as [href hash|data_href| |]; simpl in H1; try discriminate H1.
  - rewrite H1. now apply IH.
  - now apply IH.
Qed.





End Click.



(** * Further properties of the component *)

(** ** MacroExpander: text without macros *)

Section MacroFree.

Variable svc : Services.

Lemma match_kb_needs_lparen (s : string) :
  string_forall not_lparen s = true -> match_kb s = None.
Proof.
  destruct s as [|k [|b [|p r]]]; try reflexivity.
  simpl. intros H.
  apply andb_true_iff in H as [_ H]. apply andb_true_iff in H as [_ H].
  apply andb_true_iff in H as [H _]. unfold not_lparen in H.
  apply negb_true_iff in H. now rewrite H, andb_false_r.
Qed.

(** X1. A text without an opening parenthesis holds no macro:
    [expandMacros] returns it unchanged, whatever the keybindings are. *)
Theorem expandMacros_without_parenthesis (s : string) :
  string_forall not_lparen s = true -> expandMacros svc s = s.
Proof.
  induction s as [|c s IH]; intros H.
  - now simp expandMacros.
  - rewrite expandMacros_step, (match_kb_needs_lparen _ H).
    simpl in H. apply andb_true_iff in H as [_ H]. now rewrite IH.
Qed.

End MacroFree.

Lemma expandMacros_without_parenthesis_witness :
  string_forall not_lparen "# Welcome to kb" = true
  /\ expandMacros demo "# Welcome to kb" = "# Welcome to kb".
Proof.
  split; [reflexivity|].
  apply (expandMacros_without_parenthesis demo). reflexivity.
Defined.

(** ** ViewStateStore: independence of the entries *)

Section StoreEntries.

Variable svc : Services.

(** X2. The entries of the store are independent: a save made for another
    document, or in another pane slot, or while the pane position is not a
    number, leaves what a load for [(d, slot)] finds as it was. *)
Theorem save_elsewhere_keeps_entry (d d' : URI) (slot : nat)
    (slot' : option nat) (vs' : IViewState) (st : State) :
  uri_toString svc d' <> uri_toString svc d \/ slot' <> Some slot ->
  storedViewState svc d
    (set_position (Some slot) (save_as svc (d', slot', vs') st))
  = storedViewState svc d (set_position (Some slot) st).
Proof.
  intros N. unfold save_as.
  rewrite (stored_after_other_save svc d d' slot slot') by (reflexivity || exact N).
  reflexivity.
Qed.

(** X3. While the pane position is not a number, [saveTextEditorViewState]
    records no view state: a load made afterwards, for any document and in
    any slot, finds what it would have found before, so that a view state
    saved earlier for the same document is not overwritten. *)
Theorem save_without_position_records_nothing (d d' : URI) (slot : nat)
    (st : State) :
  position st = None ->
  storedViewState svc d'
    (set_position (Some slot) (saveTextEditorViewState svc d st))
  = storedViewState svc d' (set_position (Some slot) st).
Proof.
  intros P.
  apply (stored_after_other_save svc d' d slot None);
    [exact P | right; discriminate].
Qed.

(** X4. [shutdown] saves the scroll position of the current document and
    touches nothing else: the input stays, nothing is disposed, the content
    stays.  A pane created later over the same store finds that position
    when it loads the view state of the document in the same slot.  Without
    a walkthrough input, [shutdown] does nothing at all. *)
Theorem shutdown_saves_for_next_session (st : State) :
  (forall current slot,
     input st = Some current -> position st = Some slot ->
     let st' := shutdown svc st in
     let next := set_position (Some slot) (createEditor (memento st')) in
     scroll (loadTextEditorViewState svc (in_resource current) next) = scroll st
     /\ input st' = Some current
     /\ contentDisposables st' = contentDisposables st
     /\ disposables st' = disposables st
     /\ content st' = content st
     /\ scroll st' = scroll st
     /\ log st' = log st ++ [EvSaveViewState (uri_toString svc (in_resource current))])
  /\ (input st = None -> shutdown svc st = st).
Proof.
  split.
  - intros current slot I P st' next.
    assert (E : st' = saveTextEditorViewState svc (in_resource current) st).
    { subst st'. unfold shutdown. now rewrite I. }
    split.
    + unfold loadTextEditorViewState.
      rewrite (stored_ext svc _ next st')
        by (subst next; simpl; rewrite ?E; simpl; congruence).
      rewrite E, (stored_after_save svc _ slot) by exact P.
      simpl. apply view_state_eta.
    + rewrite E. simpl. repeat split. exact I.
  - intros I. unfold shutdown. now rewrite I.
Qed.

End StoreEntries.

Lemma save_elsewhere_keeps_entry_witness :
  let doc := demo_uri "/doc.md" EmptyString in
  let other := demo_uri "/other.md" EmptyString in
  let vs := {| scrollTop := 240; scrollLeft := 8 |} in
  let here := {| scrollTop := 3; scrollLeft := 0 |} in
  let st := save_as demo (doc, Some 1, vs) (createEditor None) in
  (uri_toString demo other <> uri_toString demo doc \/ Some 1 <> Some 1)
  /\ storedViewState demo doc
       (set_position (Some 1) (save_as demo (other, Some 1, here) st))
     = Some {| viewState := vs |}.
Proof.
  intros doc other vs here st.
  assert (N : uri_toString demo other <> uri_toString demo doc \/ Some 1 <> Some 1).
  { left. intros E. vm_compute in E. discriminate E. }
  split; [exact N|].
  rewrite (save_elsewhere_keeps_entry demo doc other 1 (Some 1) here st N).
  vm_compute. reflexivity.
Defined.

Lemma save_without_position_records_nothing_witness :
  let doc := demo_uri "/doc.md" EmptyString in
  let vs := {| scrollTop := 240; scrollLeft := 8 |} in
  let st := set_scroll {| scrollTop := 0; scrollLeft := 0 |}
              (set_position None (save_as demo (doc, Some 1, vs) (createEditor None))) in
  position st = None
  /\ storedViewState demo doc
       (set_position (Some 1) (saveTextEditorViewState demo doc st))
     = Some {| viewState := vs |}.
Proof.
  intros doc vs st. split; [reflexivity|].
  rewrite (save_without_position_records_nothing demo doc doc 1 st eq_refl).
  vm_compute. reflexivity.
Defined.

Lemma shutdown_saves_for_next_session_witness :
  let st := run demo [OpSetPosition (Some 2); OpSetInput doc_a;
                      OpResolved doc_a model_a;
                      OpScrolled {| scrollTop := 75; scrollLeft := 0 |}]
              (createEditor None) in
  let next := set_position (Some 2) (createEditor (memento (shutdown demo st))) in
  input st = Some doc_a /\ position st = Some 2
  /\ scroll (loadTextEditorViewState demo (in_resource doc_a) next)
     = {| scrollTop := 75; scrollLeft := 0 |}.
Proof.
  intros st next.
  assert (I : input st = Some doc_a) by (vm_compute; reflexivity).
  assert (P : position st = Some 2) by (vm_compute; reflexivity).
  split; [exact I|]. split; [exact P|].
  destruct (proj1 (shutdown_saves_for_next_session demo st) doc_a 2 I P)
    as (R & _).
  subst next. rewrite R. vm_compute. reflexivity.
Defined.

(** ** The continuation of [setInput]: how it ends *)

Section ResolutionEnd.

Variable svc : Services.

(** Mounting snippets leaves the store, the pane position, the scroll
    position and the input alone, also when it throws. *)
Lemma mount_snippets_frame (anchors : list Element)
    (snips : list SnippetModel) (i : nat) (st : State) :
  let st' := fst (mount_snippets svc anchors i snips st) in
  memento st' = memento st /\ position st' = position st
  /\ scroll st' = scroll st /\ input st' = input st.
Proof.
  revert i st. induction snips as [|m snips IH]; intros i st;
    cbv zeta; cbn [mount_snippets fst].
  - repeat split.
  - destruct (querySelector svc anchors
                (String hash_sign (escape_dots (anchor_id m))))
      as [[div|]|] eqn:Q.
    + destruct (mount_snippet_found svc anchors i m div st Q)
        as (st1 & M & _ & _ & _ & _ & Hi & Hp & Hm & Hs & _).
      rewrite M. cbv beta iota.
      destruct (IH (S i) st1) as (Im & Ip & Is & Ii).
      repeat split; congruence.
    + destruct (mount_snippet_missing svc anchors i m st) as [e E];
        [rewrite Q; congruence|].
      rewrite E. repeat split.
    + destruct (mount_snippet_missing svc anchors i m st) as [e E];
        [rewrite Q; congruence|].
      rewrite E. repeat split.
Qed.

(** The last steps of a resolution that completes: rescan, then the load of
    the view state of the document of the call, from a state [ready] where
    store, pane position and scroll position are those of the start. *)
Lemma resolved_ends_with_load (inp : WalkThroughInput)
    (model : WalkThroughModel) (st st' : State) :
  setInput_resolved svc inp model st = (st', Done) ->
  exists ready evs,
    st' = loadTextEditorViewState svc (in_resource inp) (scanDomNode svc ready)
    /\ memento ready = memento st /\ position ready = position st
    /\ scroll ready = scroll st /\ log ready = log st ++ evs.
Proof.
  unfold setInput_resolved.
  destruct (endsWith (path (in_resource inp)) ".html").
  - intros E. inversion E; subst st'. clear E. unfold render_markup.
    destruct (in_onReady inp); (eexists _, _; split; [reflexivity|]);
      simpl; repeat split; rewrite <- ?app_assoc; reflexivity.
  - unfold render_markdown. cbv zeta.
    destruct (render_code_blocks _ _ _) as [htmls|]; [|discriminate].
    unfold fresh. cbv beta iota zeta.
    set (st6 := emit [EvAppendRoot _] _).
    match goal with
    | |- context [mount_snippets svc ?a 0 ?s ?t] =>
        pose proof (mount_snippets_frame a s 0 t) as F;
        pose proof (mount_snippets_grows svc a s 0 t) as G;
        destruct (mount_snippets svc a 0 s t) as [st7 [|e]]
    end; [|discriminate].
    cbn [fst] in F, G.
    intros E. inversion E; subst st'. clear E.
    destruct F as (Fm & Fp & Fs & _).
    destruct G as [(evs & L & _) _ _ _]. simpl in *.
    destruct (in_onReady inp); (eexists _, _; split; [reflexivity|]);
      simpl; rewrite ?Fm, ?Fp, ?Fs, ?L;
      subst st6; simpl; repeat split; rewrite <- ?app_assoc; reflexivity.
Qed.

(** X5. A resolution that completes, in markup or in Markdown mode, ends by
    rescanning the scrollbar and then restoring the scroll position stored
    for its own document and the slot of the pane: when the store has an
    entry, the scrollbar ends at that entry, the restore being the last call
    and the rescan the call before it; when it has none, the rescan is the
    last call, and the scroll position is the one the rescan finds, from the
    position before the resolution. *)
Theorem resolution_restores_scroll (inp : WalkThroughInput)
    (model : WalkThroughModel) (st st' : State) :
  setInput_resolved svc inp model st = (st', Done) ->
  exists evs,
    match storedViewState svc (in_resource inp) st with
    | Some entry =>
        scroll st' = viewState entry
        /\ log st' = log st ++ evs
                     ++ [EvScanDomNode;
                         EvUpdateScroll (Some (scrollTop (viewState entry)))
                                        (Some (scrollLeft (viewState entry)))]
    | None =>
        scroll st' = rescan svc (log st ++ evs) (scroll st)
        /\ log st' = log st ++ evs ++ [EvScanDomNode]
    end.
Proof.
  intros R.
  destruct (resolved_ends_with_load inp model st st' R)
    as (ready & evs & E & M & P & S & L).
  assert (X : storedViewState svc (in_resource inp) (scanDomNode svc ready)
              = storedViewState svc (in_resource inp) st)
    by (apply stored_ext; assumption).
  exists evs. subst st'. unfold loadTextEditorViewState. rewrite X.
  destruct (storedViewState svc (in_resource inp) st) as [entry|]; simpl.
  - split; [apply view_state_eta|].
    rewrite L, <- !app_assoc. reflexivity.
  - split; [now rewrite L, S|]. rewrite L, <- !app_assoc. reflexivity.
Qed.

(** X6. Closing a document and opening it again restores its scroll
    position: after [clearInput] on a pane with a numeric position, wherever
    the scrollbar is moved meanwhile, a [setInput] for the same document
    whose resolution completes leaves the scrollbar where it was when the
    document was closed. *)
Theorem reopening_restores_scroll (current : WalkThroughInput)
    (model : WalkThroughModel) (slot : nat) (meanwhile : IViewState)
    (st st' : State) :
  input st = Some current -> position st = Some slot ->
  setInput_resolved svc current model
    (setInput svc current (set_scroll meanwhile (clearInput svc st)))
  = (st', Done) ->
  scroll st' = scroll st.
Proof.
  intros I P R.
  destruct (resolved_ends_with_load _ _ _ _ R)
    as (ready & evs & E & Hm & Hp & _ & _).
  assert (X : storedViewState svc (in_resource current) (scanDomNode svc ready)
              = Some {| viewState := scroll st |}).
  { rewrite (stored_ext svc _ _
               (saveTextEditorViewState svc (in_resource current) st)).
    - now apply stored_after_save with (slot := slot).
    - cbn [scanDomNode memento emit set_scroll]. rewrite Hm.
      unfold clearInput, setInput. rewrite I. reflexivity.
    - cbn [scanDomNode position emit set_scroll]. rewrite Hp.
      unfold clearInput, setInput. rewrite I. reflexivity. }
  subst st'. unfold loadTextEditorViewState. rewrite X. simpl.
  apply view_state_eta.
Qed.

End ResolutionEnd.

Lemma resolution_restores_scroll_witness :
  let st := setInput demo doc_a
              (save_as demo (in_resource doc_a, Some 1,
                             {| scrollTop := 310; scrollLeft := 4 |})
                 (createEditor None)) in
  let st' := fst (setInput_resolved demo doc_a model_a
                    (set_scroll {| scrollTop := 0; scrollLeft := 0 |} st)) in
  setInput_resolved demo doc_a model_a
    (set_scroll {| scrollTop := 0; scrollLeft := 0 |} st) = (st', Done)
  /\ scroll st' = {| scrollTop := 310; scrollLeft := 4 |}.
Proof.
  intros st st'.
  assert (R : setInput_resolved demo doc_a model_a
                (set_scroll {| scrollTop := 0; scrollLeft := 0 |} st) = (st', Done))
    by (vm_compute; reflexivity).
  split; [exact R|].
  destruct (resolution_restores_scroll demo _ _ _ _ R) as [evs X].
  assert (E : storedViewState demo (in_resource doc_a)
                (set_scroll {| scrollTop := 0; scrollLeft := 0 |} st)
              = Some {| viewState := {| scrollTop := 310; scrollLeft := 4 |} |})
    by (vm_compute; reflexivity).
  rewrite E in X. exact (proj1 X).
Defined.

Lemma reopening_restores_scroll_witness :
  let st := run demo [OpSetPosition (Some 0); OpSetInput doc_a;
                      OpResolved doc_a model_a;
                      OpScrolled {| scrollTop := 512; scrollLeft := 0 |}]
              (createEditor None) in
  let reopened := setInput demo doc_a
                    (set_scroll {| scrollTop := 9; scrollLeft := 9 |}
                       (clearInput demo st)) in
  let st' := fst (setInput_resolved demo doc_a model_a reopened) in
  input st = Some doc_a /\ position st = Some 0
  /\ setInput_resolved demo doc_a model_a reopened = (st', Done)
  /\ scroll st' = {| scrollTop := 512; scrollLeft := 0 |}.
Proof.
  intros st reopened st'.
  assert (I : input st = Some doc_a) by (vm_compute; reflexivity).
  assert (P : position st = Some 0) by (vm_compute; reflexivity).
  assert (R : setInput_resolved demo doc_a model_a reopened = (st', Done))
    by (vm_compute; reflexivity).
  split; [exact I|]. split; [exact P|]. split; [exact R|].
  rewrite (reopening_restores_scroll demo doc_a model_a 0
             {| scrollTop := 9; scrollLeft := 9 |} st st' I P R).
  vm_compute. reflexivity.
Defined.

(** ** Markup mode, and documents whose code blocks and snippets differ *)

Lemma map_imap_pointwise {A B C : Type} (f : nat -> A -> B) (g : B -> C)
    (h : A -> C) (l : list A) :
  (forall k x, g (f k x) = h x) -> map g (imap f l) = map h l.
Proof.
  revert f. induction l as [|x l IH]; intros f E; simpl; [reflexivity|].
  rewrite E. f_equal. apply IH. intros k y. apply E.
Qed.

Lemma render_code_blocks_short (snips : list SnippetModel)
    (blocks : list Block) (i : nat) :
  i <= List.length snips ->
  List.length snips < i + count_code blocks ->
  render_code_blocks snips i blocks = None.
Proof.
  revert i. induction blocks as [|[html|text lang] blocks IH]; intros i B H;
    simpl in *.
  - lia.
  - now apply IH.
  - destruct (snips !! i) as [m|] eqn:E; [|reflexivity].
    apply lookup_lt_Some in E.
    rewrite (IH (S i)) by lia. reflexivity.
Qed.

Section Modes.

Variable svc : Services.

(** X7. For a document whose path ends in [.html] the resolution always
    completes and replaces the content by the elements of the markup, as
    they are: their classes are kept, no placeholder is looked for and no
    editor is created, even when snippet models are supplied.  Every
    [.shortcut[data-command]] element receives exactly one text node: the
    label of the first keybinding of its command, or the fixed label
    ["unbound"] when the command is empty or has no keybinding. *)
Theorem markup_resolution (inp : WalkThroughInput) (model : WalkThroughModel)
    (st : State) :
  endsWith (path (in_resource inp)) ".html" = true ->
  let els := parse_markup svc (join_lines (main_lines model)) in
  exists st',
    setInput_resolved svc inp model st = (st', Done)
    /\ map root_classes (content st') = map me_classes els
    /\ map root_shortcuts (content st')
       = map (fun me =>
                map (fun c =>
                       (c, [if is_empty_string c then "unbound"
                            else match lookupKeybindings svc c with
                                 | keybinding :: _ => getLabelFor svc keybinding
                                 | [] => "unbound"
                                 end]))
                    (me_commands me)) els
    /\ Forall (fun r => root_anchors r = []) (content st')
    /\ contentDisposables st' = contentDisposables st
    /\ heights st' = heights st.
Proof.
  intros H els. unfold setInput_resolved. rewrite H.
  eexists. split; [reflexivity|].
  unfold render_markup. fold els.
  set (ready := scanDomNode svc _).
  assert (K : content (loadTextEditorViewState svc (in_resource inp) ready)
              = map (decorate_root svc) (markup_roots (nextId st) els)).
  { unfold loadTextEditorViewState.
    destruct (storedViewState _ _ _); subst ready;
      destruct (in_onReady inp); reflexivity. }
  rewrite K. unfold markup_roots.
  split; [|split; [|split; [|split]]].
  - rewrite map_map. apply map_imap_pointwise. reflexivity.
  - rewrite map_map. apply map_imap_pointwise. intros k me. simpl.
    rewrite map_map. reflexivity.
  - apply Forall_forall. intros r Hr.
    apply list_elem_of_fmap in Hr as (r0 & -> & Hr0).
    apply list_elem_of_lookup in Hr0 as [k Hk].
    rewrite list_lookup_imap in Hk.
    destruct (els !! k); simpl in Hk; [|discriminate].
    inversion Hk; subst. reflexivity.
  - unfold loadTextEditorViewState.
    destruct (storedViewState _ _ _); subst ready;
      destruct (in_onReady inp); reflexivity.
  - unfold loadTextEditorViewState.
    destruct (storedViewState _ _ _); subst ready;
      destruct (in_onReady inp); reflexivity.
Qed.

(** X8. When a Markdown document has more code blocks than snippet models
    are supplied, the resolution throws a [TypeError] while the Markdown is
    converted, before anything is mounted: the state is exactly the one
    before the resolution. *)
Theorem more_code_blocks_than_snippets (inp : WalkThroughInput)
    (model : WalkThroughModel) (st : State) :
  endsWith (path (in_resource inp)) ".html" = false ->
  List.length (snippets model)
  < count_code (marked_blocks svc (expandMacros svc (join_lines (main_lines model)))) ->
  setInput_resolved svc inp model st = (st, Threw TypeError).
Proof.
  intros H N. unfold setInput_resolved. rewrite H. unfold render_markdown.
  rewrite render_code_blocks_short by (simpl; lia || exact N). reflexivity.
Qed.

End Modes.

Lemma markup_resolution_witness :
  let page := {| in_resource := demo_uri "/page.html" EmptyString;
                 in_telemetryFrom := "welcome"; in_onReady := true |} in
  let st := setInput demo page (createEditor None) in
  exists st',
    setInput_resolved demo page model_a st = (st', Done)
    /\ map root_classes (content st') = [["page"]]
    /\ map root_shortcuts (content st') = [[("foo.bar", ["unbound"])]].
Proof.
  intros page st.
  destruct (markup_resolution demo page model_a st eq_refl)
    as (st' & R & C & S & _).
  exists st'. split; [exact R|]. split; [exact C | exact S].
Defined.

Lemma more_code_blocks_than_snippets_witness :
  let model := demo_model "~ and ~" [demo_snippet "0.js" 2] in
  let st := setInput demo doc_a (createEditor None) in
  List.length (snippets model)
  < count_code (marked_blocks demo (expandMacros demo (join_lines (main_lines model))))
  /\ setInput_resolved demo doc_a model st = (st, Threw TypeError).
Proof.
  intros model st.
  assert (N : List.length (snippets model)
              < count_code (marked_blocks demo
                              (expandMacros demo (join_lines (main_lines model)))))
    by (vm_compute; lia).
  split; [exact N|].
  apply (more_code_blocks_than_snippets demo doc_a model st eq_refl N).
Defined.



Section Mismatch.

Variable svc : Services.




End Mismatch.


(** ** Input focus *)


Section Focus.

Variable svc : Services.




End Focus.


(** ** Identities, listeners and disposal over whole histories *)

Lemma editor_ids_held (ds : list Disposable) (e : Editor) :
  e ∈ editors_of ds -> ed_id e ∈ map disposable_id ds.
Proof.
  intros H. unfold editors_of in H. apply list_elem_of_omap in H as (d & D & A).
  destruct d; try discriminate A. inversion A; subst.
  apply list_elem_of_fmap. eexists. split; [|exact D]. reflexivity.
Qed.

Lemma editor_ids_distinct (ds : list Disposable) :
  NoDup (map disposable_id ds) -> NoDup (map ed_id (editors_of ds)).
Proof.
  induction ds as [|d ds IH]; simpl; intros U; [constructor|].
  apply NoDup_cons in U as [U0 U]. specialize (IH U).
  destruct d; simpl; try exact IH.
  apply NoDup_cons. split; [|exact IH].
  intros X. apply U0. apply list_elem_of_fmap in X as (e' & E & X).
  simpl. rewrite E. now apply editor_ids_held.
Qed.

Section Histories.

Variable svc : Services.

Lemma contentChanged_disposables (ed lineCount : nat) (st : State) :
  contentDisposables (contentChanged svc ed lineCount st) = contentDisposables st.
Proof.
  unfold contentChanged. generalize (contentDisposables st) at 1 as ds.
  intros ds. revert st. induction ds as [|d ds IH]; intros st; simpl.
  - reflexivity.
  - rewrite IH. unfold on_content_change.
    destruct d; try reflexivity. case_decide; [|reflexivity].
    apply updateHeight_frame.
Qed.

Lemma click_disposables (ev : ClickEvent) (st : State) :
  contentDisposables (fst (click svc ev st)) = contentDisposables st.
Proof.
  unfold click. induction (ev_chain ev) as [|node parents IH]; simpl.
  - reflexivity.
  - destruct node as [href hash|data_href| |].
    + destruct (is_empty_string href); [exact IH|].
      destruct (contains (ev_baseHref ev) href && negb (is_empty_string hash)).
      * destruct (ev_querySelector ev hash); reflexivity.
      * unfold open_link.
        destruct (addFrom svc (uri_parse svc href) st); reflexivity.
    + destruct data_href as [href|]; [|reflexivity].
      destruct (is_empty_string href); [reflexivity|].
      unfold open_link.
      destruct (addFrom svc (uri_parse svc href) st); reflexivity.
    + reflexivity.
    + exact IH.
Qed.

Lemma subscribed_same (st st' : State) :
  contentDisposables st' = contentDisposables st ->
  subscribed st -> subscribed st'.
Proof. unfold subscribed. intros ->. tauto. Qed.

Lemma mount_snippets_subscribed (anchors : list Element)
    (snips : list SnippetModel) (i : nat) (st : State) :
  subscribed st -> subscribed (fst (mount_snippets svc anchors i snips st)).
Proof.
  revert i st. induction snips as [|m snips IH]; intros i st Hs;
    cbn [mount_snippets fst]; [exact Hs|].
  destruct (querySelector svc anchors
              (String hash_sign (escape_dots (anchor_id m))))
    as [[div|]|] eqn:Q.
  - destruct (mount_snippet_found svc anchors i m div st Q)
      as (st1 & M & C & _).
    rewrite M. cbv beta iota. apply IH.
    destruct Hs as [S1 S2]. unfold subscribed, editors_of in *.
    rewrite C, !omap_app, S1, S2. split; reflexivity.
  - destruct (mount_snippet_missing svc anchors i m st) as [e E];
      [rewrite Q; congruence|].
    now rewrite E.
  - destruct (mount_snippet_missing svc anchors i m st) as [e E];
      [rewrite Q; congruence|].
    now rewrite E.
Qed.

Lemma setInput_resolved_subscribed (inp : WalkThroughInput)
    (model : WalkThroughModel) (st : State) :
  subscribed st -> subscribed (fst (setInput_resolved svc inp model st)).
Proof.
  intros Hs. unfold setInput_resolved.
  destruct (endsWith _ _); cbn [fst].
  - eapply subscribed_same; [|exact Hs].
    unfold render_markup, loadTextEditorViewState.
    destruct (storedViewState _ _ _); destruct (in_onReady inp); reflexivity.
  - unfold render_markdown.
    destruct (render_code_blocks _ _ _) as [htmls|]; [|exact Hs].
    unfold fresh. cbv beta iota zeta.
    match goal with
    | |- context [mount_snippets svc ?a 0 ?s ?t] =>
        assert (S6 : subscribed t);
        [ destruct Hs as [S1 S2]; unfold subscribed, editors_of in *;
          simpl; rewrite !omap_app, S1, S2; split; reflexivity
        | pose proof (mount_snippets_subscribed a s 0 t S6) as S7;
          destruct (mount_snippets svc a 0 s t) as [st7 [|e]] ]
    end; cbn [fst] in *; [|exact S7].
    eapply subscribed_same; [|exact S7].
    unfold loadTextEditorViewState.
    destruct (storedViewState _ _ _); destruct (in_onReady inp); reflexivity.
Qed.

Lemma step_subscribed (st : State) (op : Op) :
  subscribed st -> subscribed (step svc st op).
Proof.
  intros Hs. destruct op; cbn [step].
  - destruct (setInput_fields svc inp st) as (C & _).
    unfold subscribed. rewrite C. split; reflexivity.
  - now apply setInput_resolved_subscribed.
  - eapply subscribed_same; [|exact Hs].
    unfold layout. simpl. destruct (content st); reflexivity.
  - eapply subscribed_same; [|exact Hs]. reflexivity.
  - eapply subscribed_same; [|exact Hs].
    unfold clearInput. destruct (input st); reflexivity.
  - eapply subscribed_same; [|exact Hs].
    unfold shutdown. destruct (input st); reflexivity.
  - unfold subscribed, dispose. simpl. split; reflexivity.
  - eapply subscribed_same; [|exact Hs]. reflexivity.
  - eapply subscribed_same; [|exact Hs]. reflexivity.
  - eapply subscribed_same; [|exact Hs]. apply contentChanged_disposables.
  - eapply subscribed_same; [|exact Hs]. reflexivity.
  - eapply subscribed_same; [|exact Hs]. apply click_disposables.
Qed.

Lemma run_subscribed (ops : list Op) (st : State) :
  subscribed st -> subscribed (run svc ops st).
Proof.
  revert st. induction ops as [|op ops IH]; intros st Hs; simpl; [exact Hs|].
  apply IH. now apply step_subscribed.
Qed.

Lemma subscribed_createEditor m : subscribed (createEditor m).
Proof. split; reflexivity. Qed.

(** X11. Over every history of the pane, no editor, subscription or
    scrollbar is disposed twice, nothing that has been disposed is still
    held, and what is held are distinct objects. *)
Theorem disposed_at_most_once
    (m : option (gmap string (gmap nat IWalkThroughEditorViewState)))
    (ops : list Op) :
  let st := run svc ops (createEditor m) in
  NoDup (disposed (log st))
  /\ NoDup (map disposable_id (contentDisposables st ++ disposables st))
  /\ (forall d,
        d ∈ contentDisposables st ++ disposables st ->
        disposable_id d ∉ disposed (log st)).
Proof.
  intros st.
  destruct (run_consistent svc ops (createEditor m)
              (consistent_createEditor m)) as [U _].
  fold st in U. unfold live in U.
  apply NoDup_app in U as (U1 & U2 & U3).
  split; [exact U1|]. split; [exact U3|].
  intros d D X. apply (U2 _ X). now apply list_elem_of_fmap_2.
Qed.

(** X12. [dispose] releases everything the pane holds: after any history,
    the content disposables and the scrollbar are each disposed by it, the
    pane holds nothing afterwards, and whatever happens later, a second
    [dispose] included, each of them stays disposed exactly once. *)
Theorem dispose_releases_everything
    (m : option (gmap string (gmap nat IWalkThroughEditorViewState)))
    (before after : list Op) :
  let st := run svc before (createEditor m) in
  let st' := dispose st in
  contentDisposables st' = []
  /\ disposables st' = []
  /\ log (dispose st') = log st'
  /\ (forall d,
        d ∈ contentDisposables st ++ disposables st ->
        count_occ Nat.eq_dec (disposed (log (run svc after st')))
                  (disposable_id d) = 1).
Proof.
  intros st st'.
  split; [reflexivity|]. split; [reflexivity|]. split.
  - subst st'. rewrite (dispose_log (dispose st)). simpl. apply app_nil_r.
  - intros d D. apply disposed_once.
    + apply run_consistent, dispose_consistent, run_consistent,
        consistent_createEditor.
    + apply disposed_run_prefix. subst st'.
      rewrite dispose_log, disposed_app, disposed_dispose_events.
      apply elem_of_app. right. now apply list_elem_of_fmap_2.
Qed.

(** A content-change notification that no listener held is registered for
    changes nothing. *)
Lemma content_change_unheard (ed lineCount : nat) (ds : list Disposable)
    (st : State) :
  ed ∉ map ed_id (omap content_listener ds) ->
  fold_left (fun s d => on_content_change svc ed lineCount d s) ds st = st.
Proof.
  revert st. induction ds as [|d ds IH]; intros st N; simpl; [reflexivity|].
  destruct d as [e|? ?|id e|? ?|?]; cbn [on_content_change]; simpl in N;
    try (now apply IH).
  rewrite not_elem_of_cons in N. destruct N as [N0 N].
  destruct (decide (ed_id e = ed)) as [E|_]; [congruence|].
  now apply IH.
Qed.

(** X13. Notifications do not reach what has been disposed: over every
    history, a content change of the model of an editor that has been
    disposed changes nothing in the pane, no height, no layout, no rescan. *)
Theorem disposed_editor_hears_nothing
    (m : option (gmap string (gmap nat IWalkThroughEditorViewState)))
    (ops : list Op) (ed lineCount : nat) :
  let st := run svc ops (createEditor m) in
  ed ∈ disposed (log st) ->
  contentChanged svc ed lineCount st = st.
Proof.
  intros st D. unfold contentChanged. apply content_change_unheard.
  destruct (run_subscribed ops (createEditor m) (subscribed_createEditor m))
    as [S _].
  fold st in S. rewrite S. intros X.
  apply list_elem_of_fmap in X as (e & E & X).
  apply editor_ids_held in X. rewrite <- E in X.
  destruct (run_consistent svc ops (createEditor m)
              (consistent_createEditor m)) as [U _].
  fold st in U. apply NoDup_app in U as (_ & U & _).
  apply (U _ D). unfold live. rewrite map_app. apply elem_of_app. now left.
Qed.

(** The one listener of an editor runs [updateHeight] for it. *)
Lemma content_change_heard_once (e : Editor) (lineCount : nat)
    (ds : list Disposable) (st : State) :
  NoDup (map ed_id (omap content_listener ds)) ->
  e ∈ omap content_listener ds ->
  fold_left (fun s d => on_content_change svc (ed_id e) lineCount d s) ds st
  = updateHeight svc e lineCount false st.
Proof.
  revert st. induction ds as [|d ds IH]; intros st U H; simpl in *.
  - apply elem_of_nil in H. destruct H.
  - destruct d as [e0|? ?|id e0|? ?|?]; cbn [on_content_change]; simpl in *;
      try (now apply IH).
    apply NoDup_cons in U as [U0 U].
    destruct (decide (ed_id e0 = ed_id e)) as [E|N].
    + assert (e0 = e).
      { apply elem_of_cons in H as [H|H]; [congruence|].
        exfalso. apply U0. rewrite E. now apply list_elem_of_fmap_2. }
      subst e0. destruct (decide (ed_id e = ed_id e)) as [_|N]; [|congruence].
      now apply content_change_unheard.
    + destruct (decide (ed_id e0 = ed_id e)) as [E|_]; [congruence|].
      apply elem_of_cons in H as [H|H]; [congruence|].
      now apply IH.
Qed.

(** A content change of the model of an editor that is held does what
    [updateHeight(false)] of that editor does. *)
Lemma content_change_of_held_editor
    (m : option (gmap string (gmap nat IWalkThroughEditorViewState)))
    (ops : list Op) (e : Editor) (lineCount : nat) :
  let st := run svc ops (createEditor m) in
  DEditor e ∈ contentDisposables st ->
  contentChanged svc (ed_id e) lineCount st
  = updateHeight svc e lineCount false st.
Proof.
  intros st D.
  destruct (run_subscribed ops (createEditor m) (subscribed_createEditor m))
    as [Hs _].
  fold st in Hs.
  destruct (run_consistent svc ops (createEditor m)
              (consistent_createEditor m)) as [U _].
  fold st in U. apply NoDup_app in U as (_ & _ & U).
  unfold live in U. rewrite map_app in U. apply NoDup_app in U as (U & _ & _).
  unfold contentChanged. apply content_change_heard_once.
  - rewrite Hs. now apply editor_ids_distinct.
  - rewrite Hs. unfold editors_of. apply list_elem_of_omap.
    exists (DEditor e). split; [exact D | reflexivity].
Qed.

Lemma updateHeight_other_heights (e : Editor) (lineCount : nat)
    (initial : bool) (div : nat) (st : State) :
  div <> ed_div e ->
  style_height div (updateHeight svc e lineCount initial st)
  = style_height div st.
Proof.
  intros N. unfold updateHeight, style_height.
  case_decide; [|reflexivity].
  destruct initial; simpl; now rewrite lookup_insert_ne by congruence.
Qed.

(** X14. Over every history, a content change of the model of an editor
    that is held resizes the host of that editor and nothing else: the
    notification does exactly what [updateHeight(false)] of that editor does,
    so that the host has the height of the new line count afterwards and the
    height of every other element is as before. *)
Theorem content_change_resizes_its_host
    (m : option (gmap string (gmap nat IWalkThroughEditorViewState)))
    (ops : list Op) (e : Editor) (lineCount : nat) :
  let st := run svc ops (createEditor m) in
  DEditor e ∈ contentDisposables st ->
  let st' := contentChanged svc (ed_id e) lineCount st in
  st' = updateHeight svc e lineCount false st
  /\ style_height (ed_div e) st' = snippet_height svc lineCount
  /\ (forall div, div <> ed_div e -> style_height div st' = style_height div st).
Proof.
  intros st D st'.
  assert (E : st' = updateHeight svc e lineCount false st)
    by exact (content_change_of_held_editor m ops e lineCount D).
  split; [exact E|]. rewrite E. split.
  - apply updateHeight_height.
  - intros div N. now apply updateHeight_other_heights.
Qed.

(** A height that a notification has set stays as it is for the rest of the
    notification. *)
Lemma content_change_keeps_height (ed lineCount : nat) (ds : list Disposable)
    (div : nat) (st : State) :
  style_height div st = snippet_height svc lineCount ->
  style_height div
    (fold_left (fun s d => on_content_change svc ed lineCount d s) ds st)
  = snippet_height svc lineCount.
Proof.
  revert st. induction ds as [|d ds IH]; intros st H; simpl; [exact H|].
  apply IH. destruct d as [?|? ?|id e|? ?|?]; cbn [on_content_change];
    try exact H.
  destruct (decide (ed_id e = ed)) as [_|_]; [|exact H].
  destruct (decide (div = ed_div e)) as [->|N].
  - apply updateHeight_height.
  - now rewrite updateHeight_other_heights.
Qed.

Lemma content_change_sets_heights (ed lineCount : nat) (ds : list Disposable)
    (id : nat) (e : Editor) (st : State) :
  DContentChange id e ∈ ds -> ed_id e = ed ->
  style_height (ed_div e)
    (fold_left (fun s d => on_content_change svc ed lineCount d s) ds st)
  = snippet_height svc lineCount.
Proof.
  revert st. induction ds as [|d ds IH]; intros st H E; simpl.
  - apply elem_of_nil in H. destruct H.
  - apply elem_of_cons in H as [<-|H]; [|now apply IH].
    apply content_change_keeps_height. cbn [on_content_change].
    destruct (decide (ed_id e = ed)) as [_|N]; [|congruence].
    apply updateHeight_height.
Qed.

Lemma content_change_settled (ed lineCount : nat) (ds : list Disposable)
    (st : State) :
  (forall id e, DContentChange id e ∈ ds -> ed_id e = ed ->
                style_height (ed_div e) st = snippet_height svc lineCount) ->
  fold_left (fun s d => on_content_change svc ed lineCount d s) ds st = st.
Proof.
  revert st. induction ds as [|d ds IH]; intros st H; simpl; [reflexivity|].
  assert (E : on_content_change svc ed lineCount d st = st).
  { destruct d as [?|? ?|id e|? ?|?]; cbn [on_content_change]; try reflexivity.
    destruct (decide (ed_id e = ed)) as [E|_]; [|reflexivity].
    apply updateHeight_same. apply (H id e); [apply list_elem_of_here | exact E]. }
  rewrite E. apply IH. intros id e D. apply (H id e). now apply list_elem_of_further.
Qed.

(** X16. A content-change notification settles the heights: a second
    notification for the same editor with the same line count changes
    nothing, in any state of the pane; no height is set, no editor is laid
    out and the scrollbar is not rescanned again. *)
Theorem repeated_content_change_is_silent (ed lineCount : nat) (st : State) :
  contentChanged svc ed lineCount (contentChanged svc ed lineCount st)
  = contentChanged svc ed lineCount st.
Proof.
  unfold contentChanged at 1. rewrite contentChanged_disposables.
  apply content_change_settled. intros id e D E.
  unfold contentChanged. now apply (content_change_sets_heights _ _ _ id).
Qed.

(** X17. Whether a content change resizes depends on the line count only
    through [max(lines + 1, 4)].  Over every history, for an editor that is
    held and whose host has the height of [lines] lines, a change to [lines']
    lines leaves the pane as it is exactly when the two maxima agree, so
    that a snippet of at most three lines is not resized while it stays
    within three lines; otherwise the host is given the new height, the
    editor is laid out and the scrollbar rescanned, once each. *)
Theorem content_change_resizes_iff
    (m : option (gmap string (gmap nat IWalkThroughEditorViewState)))
    (ops : list Op) (e : Editor) (lines lines' : nat) :
  let st := run svc ops (createEditor m) in
  0 < lineHeight svc ->
  DEditor e ∈ contentDisposables st ->
  style_height (ed_div e) st = snippet_height svc lines ->
  let st' := contentChanged svc (ed_id e) lines' st in
  (st' = st <-> Nat.max (lines + 1) 4 = Nat.max (lines' + 1) 4)
  /\ (Nat.max (lines + 1) 4 <> Nat.max (lines' + 1) 4 ->
      log st' = log st ++ [EvSetHeight (ed_div e) (snippet_height svc lines');
                           EvEditorLayout (ed_id e); EvScanDomNode]).
Proof.
  intros st Hpos D H st'.
  assert (E : st' = updateHeight svc e lines' false st)
    by exact (content_change_of_held_editor m ops e lines' D).
  assert (I : snippet_height svc lines = snippet_height svc lines'
              <-> Nat.max (lines + 1) 4 = Nat.max (lines' + 1) 4).
  { unfold snippet_height. split.
    - intros X. apply px_inj in X. nia.
    - intros ->. reflexivity. }
  assert (L : Nat.max (lines + 1) 4 <> Nat.max (lines' + 1) 4 ->
              log st' = log st ++ [EvSetHeight (ed_div e) (snippet_height svc lines');
                                   EvEditorLayout (ed_id e); EvScanDomNode]).
  { intros N. rewrite E, updateHeight_changed.
    - simpl. now rewrite <- app_assoc.
    - rewrite H. intros X. apply N, I, X. }
  split; [|exact L]. split.
  - intros X.
    destruct (decide (Nat.max (lines + 1) 4 = Nat.max (lines' + 1) 4))
      as [Y|N]; [exact Y|].
    apply L in N. rewrite X in N.
    apply (f_equal (@List.length Event)) in N.
    rewrite length_app in N. simpl in N. lia.
  - intros X. rewrite E. apply updateHeight_same. rewrite H. now apply I.
Qed.

Lemma themed_app (a b : list Event) : themed (a ++ b) = themed a ++ themed b.
Proof. apply omap_app. Qed.

Lemma themed_theme_change (t : string) (ds : list Disposable) :
  themed (concat (map (on_theme_change t) ds))
  = map (fun e => (ed_id e, t)) (omap theme_listener ds).
Proof.
  induction ds as [|d ds IH]; simpl; [reflexivity|].
  rewrite themed_app, IH. destruct d; reflexivity.
Qed.

(** X15. Over every history, a change of the colour theme reaches every
    editor that is held, once and in the order the editors were created,
    with the id of the new theme; editors that have been disposed are not
    told. *)
Theorem theme_change_reaches_held_editors
    (m : option (gmap string (gmap nat IWalkThroughEditorViewState)))
    (ops : list Op) (t : string) :
  let st := run svc ops (createEditor m) in
  exists evs,
    log (themeChanged t st) = log st ++ evs
    /\ themed evs = map (fun e => (ed_id e, t)) (editors_of (contentDisposables st))
    /\ (forall ed, (ed, t) ∈ themed evs -> ed ∉ disposed (log st))
    /\ theme (themeChanged t st) = t.
Proof.
  intros st.
  destruct (run_subscribed ops (createEditor m) (subscribed_createEditor m))
    as [_ S].
  fold st in S.
  exists (concat (map (on_theme_change t) (contentDisposables st))).
  split; [reflexivity|].
  rewrite themed_theme_change, S. split; [reflexivity|].
  split; [|reflexivity].
  intros ed X D.
  apply list_elem_of_fmap in X as (e & E & X). inversion E; subst ed.
  apply editor_ids_held in X.
  destruct (run_consistent svc ops (createEditor m)
              (consistent_createEditor m)) as [U _].
  fold st in U. apply NoDup_app in U as (_ & U & _).
  apply (U _ D). unfold live. rewrite map_app. apply elem_of_app. now left.
Qed.

End Histories.

Lemma disposed_at_most_once_witness :
  let st := run demo [OpSetInput doc_a; OpResolved doc_a model_a;
                      OpSetInput doc_b; OpResolved doc_b model_b;
                      OpDispose; OpDispose] (createEditor None) in
  NoDup (disposed (log st))
  /\ NoDup (map disposable_id (contentDisposables st ++ disposables st))
  /\ (forall d,
        d ∈ contentDisposables st ++ disposables st ->
        disposable_id d ∉ disposed (log st)).
Proof.
  exact (disposed_at_most_once demo None
           [OpSetInput doc_a; OpResolved doc_a model_a;
            OpSetInput doc_b; OpResolved doc_b model_b; OpDispose; OpDispose]).
Defined.

Lemma dispose_releases_everything_witness :
  let st := run demo [OpSetInput doc_a; OpResolved doc_a model_a]
              (createEditor None) in
  let st' := dispose st in
  map disposable_id (contentDisposables st ++ disposables st) = [3; 4; 5; 6; 0]
  /\ contentDisposables st' = []
  /\ disposables st' = []
  /\ log (dispose st') = log st'
  /\ (forall d,
        d ∈ contentDisposables st ++ disposables st ->
        count_occ Nat.eq_dec
          (disposed (log (run demo [OpSetInput doc_b; OpDispose] st')))
          (disposable_id d) = 1).
Proof.
  split; [vm_compute; reflexivity|].
  exact (dispose_releases_everything demo None
           [OpSetInput doc_a; OpResolved doc_a model_a]
           [OpSetInput doc_b; OpDispose]).
Defined.

Lemma disposed_editor_hears_nothing_witness :
  let st := run demo [OpSetInput doc_a; OpResolved doc_a model_a;
                      OpSetInput doc_b] (createEditor None) in
  4 ∈ disposed (log st) /\ contentChanged demo 4 20 st = st.
Proof.
  assert (D : 4 ∈ disposed (log (run demo [OpSetInput doc_a;
                                           OpResolved doc_a model_a;
                                           OpSetInput doc_b]
                                   (createEditor None)))).
  { apply (bool_decide_unpack _). vm_compute. exact I. }
  split; [exact D|].
  exact (disposed_editor_hears_nothing demo None
           [OpSetInput doc_a; OpResolved doc_a model_a; OpSetInput doc_b]
           4 20 D).
Defined.

Lemma content_change_resizes_its_host_witness :
  let st := run demo [OpSetInput doc_a; OpResolved doc_a model_a]
              (createEditor None) in
  let e := {| ed_id := 4; ed_div := 2; ed_model := demo_snippet "0.a" 2 |} in
  let st' := contentChanged demo (ed_id e) 9 st in
  DEditor e ∈ contentDisposables st
  /\ st' = updateHeight demo e 9 false st
  /\ style_height (ed_div e) st' = snippet_height demo 9
  /\ (forall div, div <> ed_div e -> style_height div st' = style_height div st).
Proof.
  intros st e st'.
  assert (D : DEditor e ∈ contentDisposables st).
  { apply list_elem_of_In. vm_compute. right. left. reflexivity. }
  split; [exact D|].
  exact (content_change_resizes_its_host demo None
           [OpSetInput doc_a; OpResolved doc_a model_a] e 9 D).
Defined.

Lemma theme_change_reaches_held_editors_witness :
  let st := run demo [OpSetInput doc_a; OpResolved doc_a model_a;
                      OpSetInput doc_b; OpResolved doc_b model_b]
              (createEditor None) in
  exists evs,
    log (themeChanged "dark" st) = log st ++ evs
    /\ themed evs
       = map (fun e => (ed_id e, "dark")) (editors_of (contentDisposables st))
    /\ (forall ed, (ed, "dark") ∈ themed evs -> ed ∉ disposed (log st))
    /\ theme (themeChanged "dark" st) = "dark".
Proof.
  exact (theme_change_reaches_held_editors demo None
           [OpSetInput doc_a; OpResolved doc_a model_a;
            OpSetInput doc_b; OpResolved doc_b model_b] "dark").
Defined.

Lemma repeated_content_change_is_silent_witness :
  let st := run demo [OpSetInput doc_a; OpResolved doc_a model_a]
              (createEditor None) in
  contentChanged demo 4 9 st <> st
  /\ contentChanged demo 4 9 (contentChanged demo 4 9 st)
     = contentChanged demo 4 9 st.
Proof.
  split.
  - intros X. apply (f_equal (fun s => List.length (log s))) in X.
    vm_compute in X. discriminate X.
  - exact (repeated_content_change_is_silent demo 4 9 _).
Defined.

Lemma content_change_resizes_iff_witness :
  let st := run demo [OpSetInput doc_a; OpResolved doc_a model_a]
              (createEditor None) in
  let e := {| ed_id := 4; ed_div := 2; ed_model := demo_snippet "0.a" 2 |} in
  let st' := contentChanged demo (ed_id e) 3 st in
  0 < lineHeight demo
  /\ DEditor e ∈ contentDisposables st
  /\ style_height (ed_div e) st = snippet_height demo 2
  /\ (st' = st <-> Nat.max (2 + 1) 4 = Nat.max (3 + 1) 4)
  /\ (Nat.max (2 + 1) 4 <> Nat.max (3 + 1) 4 ->
      log st' = log st ++ [EvSetHeight (ed_div e) (snippet_height demo 3);
                           EvEditorLayout (ed_id e); EvScanDomNode]).
Proof.
  intros st e st'.
  assert (P : 0 < lineHeight demo) by (vm_compute; lia).
  assert (D : DEditor e ∈ contentDisposables st).
  { apply list_elem_of_In. vm_compute. right. left. reflexivity. }
  assert (H : style_height (ed_div e) st = snippet_height demo 2)
    by (vm_compute; reflexivity).
  split; [exact P|]. split; [exact D|]. split; [exact H|].
  exact (content_change_resizes_iff demo None
           [OpSetInput doc_a; OpResolved doc_a model_a] e 2 3 P D H).
Defined.

(** ** ViewStateStore: when an entry changes *)

Section StoreHistory.

Variable svc : Services.

Lemma store_entry_save (d : URI) (key : string) (slot : nat) (st : State) :
  store_entry key slot (saveTextEditorViewState svc d st)
  = if decide (uri_toString svc d = key /\ position st = Some slot)
    then Some {| viewState := scroll st |}
    else store_entry key slot st.
Proof.
  unfold store_entry, saveTextEditorViewState. cbn [memento emit set_memento].
  destruct (decide (uri_toString svc d = key)) as [<-|N].
  - rewrite lookup_insert_eq.
    destruct (position st) as [p|].
    + destruct (decide (p = slot)) as [->|Np].
      * rewrite lookup_insert_eq, decide_True by (split; reflexivity).
        now rewrite view_state_eta.
      * rewrite lookup_insert_ne by exact Np.
        rewrite decide_False by (intros [_ X]; congruence).
        destruct (memento st) as [mm|]; simpl; [|apply lookup_empty].
        destruct (mm !! uri_toString svc d); simpl; [reflexivity|apply lookup_empty].
    + rewrite decide_False by (intros [_ X]; congruence).
      destruct (memento st) as [mm|]; simpl; [|apply lookup_empty].
      destruct (mm !! uri_toString svc d); simpl; [reflexivity|apply lookup_empty].
  - rewrite lookup_insert_ne by exact N.
    rewrite decide_False by (intros [X _]; congruence).
    destruct (memento st) as [mm|]; simpl; [reflexivity|].
    now rewrite lookup_empty.
Qed.

Lemma setInput_resolved_memento (inp : WalkThroughInput)
    (model : WalkThroughModel) (st : State) :
  memento (fst (setInput_resolved svc inp model st)) = memento st.
Proof.
  unfold setInput_resolved.
  destruct (endsWith _ _); cbn [fst].
  - unfold render_markup, loadTextEditorViewState.
    destruct (storedViewState _ _ _); destruct (in_onReady inp); reflexivity.
  - unfold render_markdown.
    destruct (render_code_blocks _ _ _) as [htmls|]; [|reflexivity].
    unfold fresh. cbv beta iota zeta.
    match goal with
    | |- context [mount_snippets svc ?a 0 ?s ?t] =>
        destruct (mount_snippets_frame svc a s 0 t) as (F & _);
        destruct (mount_snippets svc a 0 s t) as [st7 [|e]]
    end; cbn [fst] in *; [|exact F].
    unfold loadTextEditorViewState.
    destruct (storedViewState _ _ _); destruct (in_onReady inp); exact F.
Qed.

Lemma contentChanged_memento (ed lineCount : nat) (st : State) :
  memento (contentChanged svc ed lineCount st) = memento st.
Proof.
  unfold contentChanged. generalize (contentDisposables st) at 1 as ds.
  intros ds. revert st. induction ds as [|d ds IH]; intros st; simpl.
  - reflexivity.
  - rewrite IH. unfold on_content_change.
    destruct d; try reflexivity. case_decide; [|reflexivity].
    apply updateHeight_frame.
Qed.

Lemma click_memento (ev : ClickEvent) (st : State) :
  memento (fst (click svc ev st)) = memento st.
Proof.
  unfold click. induction (ev_chain ev) as [|node parents IH]; simpl.
  - reflexivity.
  - destruct node as [href hash|data_href| |].
    + destruct (is_empty_string href); [exact IH|].
      destruct (contains (ev_baseHref ev) href && negb (is_empty_string hash)).
      * destruct (ev_querySelector ev hash); reflexivity.
      * unfold open_link.
        destruct (addFrom svc (uri_parse svc href) st); reflexivity.
    + destruct data_href as [href|]; [|reflexivity].
      destruct (is_empty_string href); [reflexivity|].
      unfold open_link.
      destruct (addFrom svc (uri_parse svc href) st); reflexivity.
    + reflexivity.
    + exact IH.
Qed.

Lemma step_memento (st : State) (op : Op) :
  memento (step svc st op)
  = match input st with
    | Some current =>
        if saves op
        then memento (saveTextEditorViewState svc (in_resource current) st)
        else memento st
    | None => memento st
    end.
Proof.
  destruct op; cbn [step saves].
  - unfold setInput. destruct (input st); reflexivity.
  - rewrite setInput_resolved_memento. destruct (input st); reflexivity.
  - unfold layout. simpl. destruct (content st); destruct (input st); reflexivity.
  - destruct (input st); reflexivity.
  - unfold clearInput. destruct (input st); reflexivity.
  - unfold shutdown. destruct (input st); reflexivity.
  - destruct (input st); reflexivity.
  - destruct (input st); reflexivity.
  - destruct (input st); reflexivity.
  - rewrite contentChanged_memento. destruct (input st); reflexivity.
  - destruct (input st); reflexivity.
  - rewrite click_memento. destruct (input st); reflexivity.
Qed.

(** X18. An entry of the view-state store changes only when its own view
    state is saved: if one operation on the pane changes what the store holds
    for a document and a slot, the operation is one that saves ([setInput],
    [clearInput] or [shutdown]), the pane is in that slot and shows that
    document, and the new entry is the scroll position of the pane.  No
    other operation, a resolution, a layout, a click, a notification or
    [dispose], writes to the store, and no entry is ever removed. *)
Theorem store_entry_changes_only_at_own_save (st : State) (op : Op)
    (key : string) (slot : nat) :
  store_entry key slot (step svc st op) <> store_entry key slot st ->
  saves op = true
  /\ position st = Some slot
  /\ (exists current,
        input st = Some current
        /\ uri_toString svc (in_resource current) = key)
  /\ store_entry key slot (step svc st op) = Some {| viewState := scroll st |}.
Proof.
  intros N.
  assert (E : forall st', memento st' = memento st ->
                          store_entry key slot st' = store_entry key slot st).
  { intros st' M. unfold store_entry. now rewrite M. }
  pose proof (step_memento st op) as M.
  destruct (input st) as [current|] eqn:I; [|destruct N; now apply E].
  destruct (saves op); [|destruct N; now apply E].
  assert (X : store_entry key slot (step svc st op)
              = store_entry key slot
                  (saveTextEditorViewState svc (in_resource current) st)).
  { unfold store_entry. now rewrite M. }
  rewrite X in *. rewrite store_entry_save in *.
  destruct (decide (uri_toString svc (in_resource current) = key
                    /\ position st = Some slot)) as [[K P]|_];
    [|destruct N; reflexivity].
  split; [reflexivity|]. split; [exact P|]. split; [|reflexivity].
  exists current. split; [reflexivity | exact K].
Qed.

End StoreHistory.

Lemma store_entry_changes_only_at_own_save_witness :
  let st := run demo [OpSetPosition (Some 2); OpSetInput doc_a;
                      OpResolved doc_a model_a;
                      OpScrolled {| scrollTop := 40; scrollLeft := 3 |}]
              (createEditor None) in
  store_entry "walkThrough:/a.md" 2 (step demo st OpClearInput)
  <> store_entry "walkThrough:/a.md" 2 st
  /\ saves OpClearInput = true
  /\ position st = Some 2
  /\ (exists current,
        input st = Some current
        /\ uri_toString demo (in_resource current) = "walkThrough:/a.md")
  /\ store_entry "walkThrough:/a.md" 2 (step demo st OpClearInput)
     = Some {| viewState := scroll st |}.
Proof.
  intros st.
  assert (N : store_entry "walkThrough:/a.md" 2 (step demo st OpClearInput)
              <> store_entry "walkThrough:/a.md" 2 st).
  { vm_compute. discriminate. }
  split; [exact N|].
  exact (store_entry_changes_only_at_own_save demo st OpClearInput
           "walkThrough:/a.md" 2 N).
Defined.

(** ** The click handler: clicks that open nothing, and links as they are *)

Section Links.

Variable svc : Services.

(** X19. A click that meets no link changes nothing: when the walk from
    the target passes only nodes that are neither buttons nor anchors with an
    [href], and then runs out of nodes, reaches the content element itself,
    or meets a button that has no [data-href] or an empty one, the listener
    returns with the pane as it was; nothing is opened, nothing is scrolled
    and the default action is not prevented. *)
Theorem click_without_link (ev : ClickEvent) (st : State)
    (pre rest : list DomNode) :
  ev_chain ev = pre ++ rest ->
  forallb passed pre = true ->
  inert rest = true ->
  click svc ev st = (st, Done).
Proof.
  intros C P R. unfold click. rewrite C, (click_walk_passed svc ev pre _ st P).
  destruct rest as [|[href hash|[href|]| |] rest]; simpl in *;
    try discriminate R; try reflexivity.
  now rewrite R.
Qed.

(** X20. A link whose scheme is not [command] is handed to the opener
    service as it was parsed, whether or not the pane has an input: the
    telemetry origin is added to command links only.  For an anchor that is
    not a link inside the document the default action is prevented
    afterwards; for a button it is not. *)
Theorem plain_link_opened_as_is (ev : ClickEvent) (st : State)
    (pre post : list DomNode) (node : DomNode) (href : string) :
  ev_chain ev = pre ++ node :: post ->
  forallb passed pre = true ->
  href <> EmptyString ->
  scheme (uri_parse svc href) <> "command" ->
  node = NButton (Some href)
  \/ (exists hash, node = NAnchor href hash /\ in_document ev href hash = false) ->
  exists st',
    click svc ev st = (st', Done)
    /\ log st' = log st ++ EvOpen (uri_parse svc href) :: after_open node
    /\ scroll st' = scroll st /\ memento st' = memento st.
Proof.
  intros C P Hne S N. unfold click.
  rewrite C, (click_walk_passed svc ev pre _ st P).
  assert (A : addFrom svc (uri_parse svc href) st = inl (uri_parse svc href)).
  { unfold addFrom. apply String.eqb_neq in S. now rewrite S. }
  assert (Z : is_empty_string href = false) by (destruct href; [destruct Hne|]; reflexivity).
  destruct N as [->|(hash & -> & D)]; cbn [click_walk]; rewrite Z.
  - unfold open_link. rewrite A. eexists. split; [reflexivity|].
    repeat split.
  - unfold in_document in D. rewrite D. unfold open_link. rewrite A.
    eexists. split; [reflexivity|]. simpl. rewrite <- app_assoc.
    repeat split.
Qed.

(** X21. A command link that cannot be given a telemetry origin is not
    opened: the listener throws and leaves the pane as it was, without
    preventing the default action.  This is so when the query of the link is
    not empty and does not parse ([SyntaxError]), when the pane has no input,
    and when the query parses to [null] or to a primitive value
    ([TypeError]).  When the query parses to an array the link is opened,
    with the array as its query: the origin is not part of it. *)
Theorem command_link_without_origin (ev : ClickEvent) (st : State)
    (pre post : list DomNode) (node : DomNode) (href : string) :
  ev_chain ev = pre ++ node :: post ->
  forallb passed pre = true ->
  href <> EmptyString ->
  scheme (uri_parse svc href) = "command" ->
  node = NButton (Some href)
  \/ (exists hash, node = NAnchor href hash /\ in_document ev href hash = false) ->
  let uri := uri_parse svc href in
  let parsed := if is_empty_string (query uri) then Some (JObj [])
                else json_parse svc (query uri) in
  (parsed = None -> click svc ev st = (st, Threw SyntaxError))
  /\ (forall q, parsed = Some q -> input st = None ->
                click svc ev st = (st, Threw TypeError))
  /\ (forall q, parsed = Some q ->
                (forall fields, q <> JObj fields) ->
                (forall items, q <> JArr items) ->
                click svc ev st = (st, Threw TypeError))
  /\ (forall items current,
        parsed = Some (JArr items) -> input st = Some current ->
        exists st',
          click svc ev st = (st', Done)
          /\ log st'
             = log st
               ++ EvOpen (uri_with_query uri (json_stringify svc (JArr items)))
                  :: after_open node).
Proof.
  intros C P Hne S N uri parsed. unfold click.
  rewrite C, (click_walk_passed svc ev pre _ st P).
  assert (Z : is_empty_string href = false) by (destruct href; [destruct Hne|]; reflexivity).
  assert (W : click_walk svc ev (node :: post) st
              = match open_link svc href st with
                | (st', Done) => (emit (after_open node) st', Done)
                | thrown => thrown
                end
              \/ (node = NButton (Some href)
                  /\ click_walk svc ev (node :: post) st = open_link svc href st)).
  { destruct N as [->|(hash & -> & D)]; cbn [click_walk]; rewrite Z.
    - right. split; reflexivity.
    - left. unfold in_document in D. now rewrite D. }
  assert (A : addFrom svc uri st
              = match parsed with
                | None => inr SyntaxError
                | Some q =>
                    match input st with
                    | None => inr TypeError
                    | Some current =>
                        match put_from (in_telemetryFrom current) q with
                        | None => inr TypeError
                        | Some q' => inl (uri_with_query uri (json_stringify svc q'))
                        end
                    end
                end).
  { unfold addFrom. subst uri. rewrite S. reflexivity. }
  assert (T : forall e, addFrom svc uri st = inr e ->
                        click_walk svc ev (node :: post) st = (st, Threw e)).
  { intros e X. destruct W as [W|[_ W]]; rewrite W; unfold open_link;
      fold uri; now rewrite X. }
  split; [|split; [|split]].
  - intros X. apply T. now rewrite A, X.
  - intros q X I. apply T. now rewrite A, X, I.
  - intros q X NO NA. apply T. rewrite A, X.
    destruct (input st); [|reflexivity].
    destruct q; try reflexivity.
    + destruct (NA items eq_refl).
    + destruct (NO fields eq_refl).
  - intros items current X I.
    assert (O : open_link svc href st
                = (emit [EvOpen (uri_with_query uri
                                   (json_stringify svc (JArr items)))] st, Done)).
    { unfold open_link. fold uri. now rewrite A, X, I. }
    destruct W as [W|[-> W]]; rewrite W, O.
    + eexists. split; [reflexivity|]. simpl. now rewrite <- app_assoc.
    + eexists. split; reflexivity.
Qed.

End Links.

Lemma click_without_link_witness :
  let ev := {| ev_chain := [NOther; NAnchor EmptyString "#top"; NButton None;
                            NAnchor "command:workbench.action.showCommands"
                                    EmptyString];
               ev_baseHref := "file:///app/index.html";
               ev_querySelector := fun _ => QNull;
               ev_containerTop := 0 |} in
  let st := setInput demo doc_a (createEditor None) in
  click demo ev st = (st, Done).
Proof.
  intros ev st.
  exact (click_without_link demo ev st [NOther; NAnchor EmptyString "#top"]
           [NButton None;
            NAnchor "command:workbench.action.showCommands" EmptyString]
           eq_refl eq_refl eq_refl).
Defined.

Lemma plain_link_opened_as_is_witness :
  let href := "https://code.visualstudio.com/docs" in
  let node := NAnchor href EmptyString in
  let ev := {| ev_chain := [NOther; node; NCurrentTarget];
               ev_baseHref := "file:///app/index.html";
               ev_querySelector := fun _ => QNull;
               ev_containerTop := 0 |} in
  let st := createEditor None in
  exists st',
    click demo ev st = (st', Done)
    /\ log st' = log st ++ EvOpen (uri_parse demo href) :: after_open node
    /\ scroll st' = scroll st /\ memento st' = memento st.
Proof.
  intros href node ev st.
  apply (plain_link_opened_as_is demo ev st [NOther] [NCurrentTarget] node href).
  - reflexivity.
  - reflexivity.
  - discriminate.
  - vm_compute. discriminate.
  - right. exists EmptyString. split; reflexivity.
Defined.

Lemma command_link_without_origin_witness :
  let href := "command:workbench.action.openGlobalSettings?[]" in
  let node := NButton (Some href) in
  let ev := {| ev_chain := [NOther; node; NCurrentTarget];
               ev_baseHref := "file:///app/index.html";
               ev_querySelector := fun _ => QNull;
               ev_containerTop := 0 |} in
  let st := setInput demo doc_a (createEditor None) in
  let uri := uri_parse demo href in
  exists st',
    click demo ev st = (st', Done)
    /\ log st'
       = log st
         ++ EvOpen (uri_with_query uri (json_stringify demo (JArr [])))
            :: after_open node.
Proof.
  intros href node ev st uri.
  refine (proj2 (proj2 (proj2
            (command_link_without_origin demo ev st [NOther] [NCurrentTarget]
               node href eq_refl eq_refl _ eq_refl (or_introl eq_refl))))
            [] doc_a eq_refl eq_refl).
  discriminate.
Defined.

(** ** LayoutCoordinator: what a layout leaves alone *)

Lemma classList_add_other (c x : string) (l : list string) :
  x <> c -> (x ∈ classList_add c l <-> x ∈ l).
Proof.
  intros N. unfold classList_add. case_decide; [reflexivity|].
  rewrite elem_of_app, list_elem_of_singleton. tauto.
Qed.

Lemma classList_remove_other (c x : string) (l : list string) :
  x <> c -> (x ∈ classList_remove c l <-> x ∈ l).
Proof.
  intros N. unfold classList_remove. rewrite list_elem_of_filter. tauto.
Qed.

Lemma classList_add_twice (c : string) (l : list string) :
  classList_add c (classList_add c l) = classList_add c l.
Proof.
  unfold classList_add at 1. rewrite decide_True; [reflexivity|].
  apply classList_add_in.
Qed.

Lemma classList_remove_twice (c : string) (l : list string) :
  classList_remove c (classList_remove c l) = classList_remove c l.
Proof.
  unfold classList_remove. induction l as [|x l IH]; [reflexivity|].
  rewrite (filter_cons _ x l). case_decide.
  - rewrite filter_cons, decide_True by assumption. now rewrite IH.
  - exact IH.
Qed.

Section LayoutFrame.

Variable svc : Services.

Lemma layout_content (w h : nat) (st : State) :
  content (layout svc w h st)
  = match content st with
    | [] => []
    | innerContent :: others => toggle_compact h innerContent :: others
    end.
Proof.
  unfold layout. cbv zeta.
  change (content (set_content_size (Some (px h, px w)) st)) with (content st).
  destruct (content st) eqn:E; simpl; [exact E | reflexivity].
Qed.

Lemma layout_frame (w h : nat) (st : State) :
  heights (layout svc w h st) = heights st
  /\ scroll (layout svc w h st)
     = rescan svc
         (log st ++ map (fun e => EvEditorLayout (ed_id e))
                        (editors_of (contentDisposables st)))
         (scroll st)
  /\ memento (layout svc w h st) = memento st
  /\ contentDisposables (layout svc w h st) = contentDisposables st.
Proof.
  unfold layout. cbv zeta.
  change (content (set_content_size (Some (px h, px w)) st)) with (content st).
  destruct (content st); repeat split.
Qed.

Lemma toggle_compact_twice (h : nat) (r : Root) :
  toggle_compact h (toggle_compact h r) = toggle_compact h r.
Proof.
  unfold toggle_compact. simpl.
  destruct (h <=? 690)%nat;
    [now rewrite classList_add_twice | now rewrite classList_remove_twice].
Qed.

(** X22. A layout touches one class of one element.  Of the rendered
    content it changes nothing but the membership of [max-height-690px] in
    the class list of the first element child: every other class of that
    element, its placeholders and shortcuts, and every other child are as
    before.  It changes neither the heights of the snippets, nor the store,
    nor the disposables; the scroll position it leaves is the one found by
    the rescan that ends the call, made after the editors were laid out; and
    a second layout with the same height leaves the content as the first one
    did. *)
Theorem layout_touches_one_class (w h : nat) (st : State) :
  let st' := layout svc w h st in
  map root_node (content st') = map root_node (content st)
  /\ map root_anchors (content st') = map root_anchors (content st)
  /\ map root_shortcuts (content st') = map root_shortcuts (content st)
  /\ tail (content st') = tail (content st)
  /\ (forall r r' c,
        head (content st) = Some r -> head (content st') = Some r' ->
        c <> COMPACT -> (c ∈ root_classes r' <-> c ∈ root_classes r))
  /\ heights st' = heights st
  /\ scroll st'
     = rescan svc
         (log st ++ map (fun e => EvEditorLayout (ed_id e))
                        (editors_of (contentDisposables st)))
         (scroll st)
  /\ memento st' = memento st
  /\ contentDisposables st' = contentDisposables st
  /\ forall w', content (layout svc w' h st') = content st'.
Proof.
  intros st'. subst st'.
  destruct (layout_frame w h st) as (Fh & Fs & Fm & Fd).
  assert (L : forall w', content (layout svc w' h (layout svc w h st))
                         = content (layout svc w h st)).
  { intros w'. rewrite (layout_content w' h), (layout_content w h).
    destruct (content st); [reflexivity|]. now rewrite toggle_compact_twice. }
  pose proof (layout_content w h st) as C.
  destruct (content st) as [|r rest]; rewrite C in L |- *.
  - split; [reflexivity|]. split; [reflexivity|]. split; [reflexivity|].
    split; [reflexivity|]. split; [intros r r' c X; discriminate X|].
    repeat (split; [assumption|]). exact L.
  - split; [reflexivity|]. split; [reflexivity|]. split; [reflexivity|].
    split; [reflexivity|]. split.
    + intros r0 r' c X Y N. inversion X; inversion Y; subst.
      cbn [toggle_compact root_classes].
      destruct (h <=? 690)%nat;
        [now apply classList_add_other | now apply classList_remove_other].
    + repeat (split; [assumption|]). exact L.
Qed.

End LayoutFrame.

Lemma layout_touches_one_class_witness :
  let st := run demo [OpSetInput doc_a; OpResolved doc_a model_a;
                      OpLayout 800 900] (createEditor None) in
  let st' := layout demo 1024 600 st in
  map root_classes (content st) = [["walkThroughContent"]]
  /\ map root_classes (content st') = [["walkThroughContent"; COMPACT]]
  /\ map root_node (content st') = map root_node (content st)
  /\ map root_anchors (content st') = map root_anchors (content st)
  /\ map root_shortcuts (content st') = map root_shortcuts (content st)
  /\ tail (content st') = tail (content st)
  /\ (forall r r' c,
        head (content st) = Some r -> head (content st') = Some r' ->
        c <> COMPACT -> (c ∈ root_classes r' <-> c ∈ root_classes r))
  /\ heights st' = heights st
  /\ scroll st'
     = rescan demo
         (log st ++ map (fun e => EvEditorLayout (ed_id e))
                        (editors_of (contentDisposables st)))
         (scroll st)
  /\ memento st' = memento st
  /\ contentDisposables st' = contentDisposables st
  /\ forall w', content (layout demo w' 600 st') = content st'.
Proof.
  split; [vm_compute; reflexivity|]. split; [vm_compute; reflexivity|].
  exact (layout_touches_one_class demo 1024 600 _).
Defined.

(** On a page whose extent ends at the offset 100, a layout made while the
    surface holds the offset 400 leaves it at 100: the rescan that ends the
    layout moves it. *)
Example layout_rescan_moves_scroll :
  let st := set_scroll {| scrollTop := 400; scrollLeft := 0 |}
              (createEditor None) in
  scroll (layout demo_short 800 900 st) = {| scrollTop := 100; scrollLeft := 0 |}.
Proof. reflexivity. Qed.

(** ** The style of a Markdown document *)

Lemma styled_theme_change (t : string) (ds : list Disposable) :
  styled (concat (map (on_theme_change t) ds))
  = map (fun r => (r, t)) (omap style_listener ds).
Proof.
  induction ds as [|d ds IH]; simpl; [reflexivity|].
  unfold styled in *. rewrite omap_app, IH. destruct d; reflexivity.
Qed.

Section Style.

Variable svc : Services.

Lemma mount_snippets_style_listeners (anchors : list Element)
    (snips : list SnippetModel) (i : nat) (st : State) :
  omap style_listener (contentDisposables (fst (mount_snippets svc anchors i snips st)))
  = omap style_listener (contentDisposables st).
Proof.
  revert i st. induction snips as [|m snips IH]; intros i st;
    cbn [mount_snippets fst]; [reflexivity|].
  destruct (querySelector svc anchors
              (String hash_sign (escape_dots (anchor_id m))))
    as [[div|]|] eqn:Q.
  - destruct (mount_snippet_found svc anchors i m div st Q)
      as (st1 & M & C & _).
    rewrite M. cbv beta iota. rewrite IH, C, omap_app. simpl.
    apply app_nil_r.
  - destruct (mount_snippet_missing svc anchors i m st) as [e E];
      [rewrite Q; congruence|].
    now rewrite E.
  - destruct (mount_snippet_missing svc anchors i m st) as [e E];
      [rewrite Q; congruence|].
    now rewrite E.
Qed.

(** X23. The element of a Markdown document follows the theme.  When the
    resolution of a Markdown document completes, the new element was given
    the style of the current theme before it was appended to the content,
    and one more element is restyled at a theme change: a theme change then
    calls [style] for the elements that were restyled before and for the new
    one, once each, and for nothing else. *)
Theorem markdown_root_follows_theme (inp : WalkThroughInput)
    (model : WalkThroughModel) (st st' : State) (t : string) :
  endsWith (path (in_resource inp)) ".html" = false ->
  setInput_resolved svc inp model st = (st', Done) ->
  let root := nextId st in
  (exists evs,
     log st' = log st ++ EvStyle root (theme st) :: EvAppendRoot root :: evs)
  /\ omap style_listener (contentDisposables st')
     = omap style_listener (contentDisposables st) ++ [root]
  /\ exists evs',
       log (themeChanged t st') = log st' ++ evs'
       /\ styled evs'
          = map (fun r => (r, t))
                (omap style_listener (contentDisposables st) ++ [root]).
Proof.
  intros Hmd R root.
  assert (A : (exists evs,
                 log st' = log st ++ EvStyle root (theme st)
                                     :: EvAppendRoot root :: evs)
              /\ omap style_listener (contentDisposables st')
                 = omap style_listener (contentDisposables st) ++ [root]).
  { revert R. unfold setInput_resolved. rewrite Hmd. unfold render_markdown.
    cbv zeta.
    destruct (render_code_blocks _ _ _) as [htmls|]; [|discriminate].
    unfold fresh. cbv beta iota zeta.
    match goal with
    | |- context [mount_snippets svc ?a 0 ?s ?t] =>
        pose proof (mount_snippets_style_listeners a s 0 t) as L;
        destruct (mount_snippets_grows svc a s 0 t) as [(evs & G & _) _ _ _];
        destruct (mount_snippets svc a 0 s t) as [st7 [|e]]
    end; [|discriminate].
    cbn [fst] in *. intros R. inversion R; subst st'. clear R. split.
    - exists (evs ++ (if in_onReady inp then [EvOnReady (Some root)] else [])
                  ++ EvScanDomNode
                  :: match storedViewState svc (in_resource inp)
                             (scanDomNode svc
                                (if in_onReady inp
                                 then emit [EvOnReady (Some root)] st7
                                 else st7)) with
                     | Some state =>
                         [EvUpdateScroll (Some (scrollTop (viewState state)))
                                         (Some (scrollLeft (viewState state)))]
                     | None => []
                     end).
      unfold loadTextEditorViewState.
      destruct (storedViewState _ _ _); destruct (in_onReady inp);
        cbn [log emit scanDomNode scrollbar_updateState set_scroll];
        rewrite G; cbn [log emit set_content push_content
                        set_contentDisposables set_nextId style theme];
        rewrite <- ?app_assoc; reflexivity.
    - unfold loadTextEditorViewState.
      destruct (storedViewState _ _ _); destruct (in_onReady inp);
        cbn [contentDisposables emit scanDomNode scrollbar_updateState
             set_scroll];
        rewrite L; cbn [contentDisposables emit set_content push_content
                        set_contentDisposables set_nextId style];
        rewrite omap_app; reflexivity. }
  destruct A as [A1 A2]. split; [exact A1|]. split; [exact A2|].
  eexists. split; [reflexivity|].
  now rewrite styled_theme_change, A2.
Qed.

End Style.

Lemma markdown_root_follows_theme_witness :
  let st := setInput demo doc_a (createEditor None) in
  exists st',
    setInput_resolved demo doc_a model_a st = (st', Done)
    /\ (exists evs,
          log st' = log st ++ EvStyle 1 (theme st) :: EvAppendRoot 1 :: evs)
    /\ omap style_listener (contentDisposables st') = [] ++ [1]
    /\ exists evs',
         log (themeChanged "dark" st') = log st' ++ evs'
         /\ styled evs' = map (fun r => (r, "dark")) ([] ++ [1]).
Proof.
  intros st. eexists. split; [vm_compute; reflexivity|].
  apply (markdown_root_follows_theme demo doc_a model_a st _ "dark").
  - vm_compute. reflexivity.
  - vm_compute. reflexivity.
Defined.
